(** * packages/bigtable/src/table.js: the streaming read and mutate pipelines

    A shallow embedding of [Table.prototype.mutate], [Table.prototype.insert],
    [Table.prototype.getRows] and [Table.prototype.row], with the npm helpers
    they call ([arrify], [lodash.flatten], [prop-assign], [concat-stream]) and
    the stream events they subscribe to. *)

From stdpp Require Import gmap strings list.
From Stdlib Require Import ZArith.

Set Warnings "-register-all,-abstract-large-number".

Open Scope Z_scope.
Open Scope nat_scope.
Open Scope string_scope.
Open Scope list_scope.

(** ** JavaScript values *)

(** Objects live in a store and are passed by reference. *)
Abbreviation addr := nat.

(** The named properties of an object that the mutate pipeline can touch:
    [key], [method] and [data]; an absent property reads [undefined]. *)
Record props (D : Type) := Props {
  key : option string;
  method : option string;
  data : option D
}.
Arguments Props {D} _ _ _.
Arguments key {D} _.
Arguments method {D} _.
Arguments data {D} _.

(** A value handed in as [entries]: a plain object, or an array of values.
    An array is an object too: it has an identity and may carry named
    properties of its own. *)
Inductive value :=
  | VObj (a : addr)
  | VArr (a : addr) (elems : list value).

Definition addr_of (v : value) : addr :=
  match v with
  | VObj a => a
  | VArr a _ => a
  end.

(** The plain objects of a value, left to right, at any depth. *)
Fixpoint leaves (v : value) : list addr :=
  match v with
  | VObj a => [a]
  | VArr _ elems => flat_map leaves elems
  end.

(** Every address a value mentions. *)
Fixpoint addrs (v : value) : list addr :=
  match v with
  | VObj a => [a]
  | VArr a elems => a :: flat_map addrs elems
  end.

Definition is_plain (v : value) : bool :=
  match v with
  | VObj _ => true
  | VArr _ _ => false
  end.

(** An element of a list nested at most one level deep. *)
Definition shallow (v : value) : bool :=
  match v with
  | VObj _ => true
  | VArr _ elems => forallb is_plain elems
  end.

(** A per-entry status as the service streams it. *)
Record status := Status {
  code : Z;
  message : string
}.

(** ** The collaborators of table.js

    mutation.js, filter.js, row.js and @google-cloud/common are not part of
    this file; their functions are taken as given. *)
Class Externals := {
  (** column data of an entry and of a row; never inspected by table.js *)
  Data : Type;
  (** a stream-level error object *)
  Err : Type;
  (** [Mutation.methods.INSERT] *)
  INSERT : string;
  (** [Mutation.parse]: reads the entry's properties, builds the wire form *)
  Proto : Type;
  Mutation_parse : props Data -> Proto;
  (** [Mutation.convertToBytes] *)
  Bytes : Type;
  convertToBytes : string -> Bytes;
  (** [Filter.createRange(start, end, 'Key')] *)
  RowRange : Type;
  createRange : option string -> option string -> RowRange;
  (** [Filter.parse] *)
  FilterSpec : Type;
  FilterProto : Type;
  Filter_parse : FilterSpec -> FilterProto;
  (** [Row.formatChunks_(chunks, {decode})] *)
  Chunks : Type;
  formatChunks_ : Chunks -> option bool -> list (string * Data);
  (** [common.GrpcService.decorateStatus_] *)
  decorateStatus_ : status -> status
}.

(** ** Status objects *)

(** One element of [data.entries] in a mutateRows response message. *)
Record entry_status := EntryStatus {
  index : nat;
  entry_st : status
}.

(** The status handed downstream: the decorated status with its [entry]
    property; [None] is [undefined]. *)
Record failure := Failure {
  f_status : status;
  f_entry : option value
}.

Section Model.
Context `{Ext : Externals}.

(** ** The object store *)

Definition empty_props : props Data := Props None None None.

(** [read h a] reads the properties of object [a]; an object the store does
    not list has no property. *)
Definition read (h : gmap addr (props Data)) (a : addr) : props Data :=
  default empty_props (h !! a).

(** ** npm helpers *)

(** arrify: an array is returned as it is, any other value is wrapped. *)
Definition arrify (val : value) : list value :=
  match val with
  | VArr _ elems => elems
  | VObj _ => [val]
  end.

(** lodash.flatten: flattens the array a single level deep. *)
Fixpoint flatten (array : list value) : list value :=
  match array with
  | [] => []
  | VArr _ elems :: rest => elems ++ flatten rest
  | v :: rest => v :: flatten rest
  end.

(** prop-assign: [propAssign(prop, val)] is
    [function(obj) { obj[prop] = val; return obj; }], here at
    [prop = 'method']: the object is updated in place and returned. *)
Definition set_method (val : string) (p : props Data) : props Data :=
  Props (key p) (Some val) (data p).

Definition propAssign_method (val : string) (h : gmap addr (props Data)) (obj : value)
  : gmap addr (props Data) * value :=
  (<[addr_of obj := set_method val (read h (addr_of obj))]> h, obj).

(** [array.map(f)] for an [f] that writes to the store: elements are visited
    in order, the results are collected in a new array. *)
Fixpoint map_st (f : gmap addr (props Data) -> value -> gmap addr (props Data) * value)
  (h : gmap addr (props Data)) (array : list value)
  : gmap addr (props Data) * list value :=
  match array with
  | [] => (h, [])
  | v :: rest =>
      let '(h1, v') := f h v in
      let '(h2, rest') := map_st f h1 rest in
      (h2, v' :: rest')
  end.

(** An address for a newly allocated array: one used neither by the store
    nor by the values at hand. *)
Definition fresh_addr (h : gmap addr (props Data)) (vs : list value) : addr :=
  fresh (dom h ∪ list_to_set (flat_map addrs vs) : gset addr).

(** ** Calls and their results *)

Record Table := MkTable { t_id : string }.

Record grpc_opts := GrpcOpts {
  service : string;
  grpc_method : string
}.

(** The optional [callback] argument. *)
Inductive callback := Callback | NoCallback.

Definition is_function (c : callback) : bool :=
  match c with
  | Callback => true
  | NoCallback => false
  end.

(** What a call hands back to its caller. *)
Inductive returned := RetUndefined | RetEmitter | RetStream.

Inductive completion :=
  | Returns (r : returned)
  | Throws (msg : string).

(** ** Streams *)

(** How the request stream of one call goes: the messages it delivers, then
    normal completion or a stream-level error. Normal completion is the
    point where [stream] emits ['finish'] and where what it pipes into sees
    its end; a stream-level error is its ['error'] event, after which
    nothing more arrives. *)
Inductive terminator :=
  | Finished
  | Failed (e : Err).

Record response (M : Type) := Response {
  messages : list M;
  termination : terminator
}.
#[global] Arguments Response {M} _ _.
#[global] Arguments messages {M} _.
#[global] Arguments termination {M} _.

Inductive stream_event (A : Type) :=
  | OnData (a : A)
  | OnError (e : Err)
  | OnEnd.
#[global] Arguments OnData {A} _.
#[global] Arguments OnError {A} _.
#[global] Arguments OnEnd {A}.

Definition events_of {M : Type} (r : response M) : list (stream_event M) :=
  map OnData (messages r) ++
  [match termination r with
   | Finished => OnEnd
   | Failed e => OnError e
   end].

(** [callback(err)] and [callback(null, results)]. *)
Inductive callback_call (A : Type) :=
  | CallErr (err : Err)
  | CallOk (results : list A).
#[global] Arguments CallErr {A} _.
#[global] Arguments CallOk {A} _.

(** [stream.on('error', callback).pipe(concat(function(xs) { callback(null,
    xs); }))]: concat-stream collects what is written to it and calls back
    with the collected array (an empty one when nothing was written) once its
    source ends; an error on the source goes to [callback] and never reaches
    concat. *)
Record sink (A : Type) := Sink {
  buffer : list A;
  calls : list (callback_call A)
}.
#[global] Arguments Sink {A} _ _.
#[global] Arguments buffer {A} _.
#[global] Arguments calls {A} _.

Definition sink_step {A : Type} (s : sink A) (ev : stream_event A) : sink A :=
  match ev with
  | OnData a => Sink (buffer s ++ [a]) (calls s)
  | OnError e => Sink (buffer s) (calls s ++ [CallErr e])
  | OnEnd => Sink (buffer s) (calls s ++ [CallOk (buffer s)])
  end.

Definition deliver {A : Type} (evs : list (stream_event A)) : list (callback_call A) :=
  calls (foldl sink_step (Sink [] []) evs).

(** ** Table.prototype.mutate *)

Record mutate_reqOpts := MutateReqOpts {
  m_objectMode : bool;
  m_tableName : string;
  m_entries : list Proto
}.

(** What one call of [mutate] has done by the time it returns, and what its
    stream handlers close over. *)
Record mutate_call := MutateCall {
  mc_store : gmap addr (props Data);
  mc_opened : list (grpc_opts * mutate_reqOpts);
  mc_completion : completion;
  mc_entries : list value;
  mc_isCallbackMode : bool
}.

Definition mutate (h : gmap addr (props Data)) (this : Table)
  (entries : value) (cb : callback) : mutate_call :=
  let entries := flatten (arrify entries) in
  let grpcOpts := GrpcOpts "Bigtable" "mutateRows" in
  let reqOpts :=
    MutateReqOpts true (t_id this)
      (map (fun entry => Mutation_parse (read h (addr_of entry))) entries) in
  let isCallbackMode := is_function cb in
  MutateCall h [(grpcOpts, reqOpts)]
    (Returns (if isCallbackMode then RetUndefined else RetEmitter))
    entries isCallbackMode.

(** A call that fails at construction: it throws to its caller and has
    opened no request. *)
Definition fails_at_construction (c : mutate_call) : Prop :=
  mc_opened c = [] ∧ ∃ msg, mc_completion c = Throws msg.

(** An event on the emitter that [mutate] returns: ['error'] with a decorated
    per-entry status or with a stream-level error, or ['complete']. *)
Inductive emitter_event :=
  | EmitError (payload : failure + Err)
  | EmitComplete.

(** The emitter's events so far, and the events of [stream] (the pumpify
    pipeline) so far. *)
Record mutate_state := MutateState {
  emitted : list emitter_event;
  out : list (stream_event failure)
}.

(** The body of [data.entries.forEach] in the through stage. *)
Definition on_entry (entries : list value) (isCallbackMode : bool)
  (st : mutate_state) (entry : entry_status) : mutate_state :=
  if (code (entry_st entry) =? 0)%Z then st
  else
    let status := Failure (decorateStatus_ (entry_st entry)) (entries !! index entry) in
    if negb isCallbackMode
    then MutateState (emitted st ++ [EmitError (inl status)]) (out st)
    else MutateState (emitted st) (out st ++ [OnData status]).

(** What the loop over one message comes to: the statuses with a non-zero
    code, each decorated and given the entry at its index. *)
Definition decorated (entries : list value) (reported : list entry_status)
  : list failure :=
  map (fun e => Failure (decorateStatus_ (entry_st e)) (entries !! index e))
      (filter (fun e => code (entry_st e) ≠ 0%Z) reported).

(** One event of the request stream: a message goes through the through
    stage; an error or the end goes to the listeners on [stream]. *)
Definition mutate_step (c : mutate_call) (st : mutate_state)
  (ev : stream_event (list entry_status)) : mutate_state :=
  match ev with
  | OnData entries_of_data =>
      foldl (on_entry (mc_entries c) (mc_isCallbackMode c)) st entries_of_data
  | OnError e =>
      if negb (mc_isCallbackMode c)
      then MutateState (emitted st ++ [EmitError (inr e)]) (out st ++ [OnError e])
      else MutateState (emitted st) (out st ++ [OnError e])
  | OnEnd =>
      if negb (mc_isCallbackMode c)
      then MutateState (emitted st ++ [EmitComplete]) (out st ++ [OnEnd])
      else MutateState (emitted st) (out st ++ [OnEnd])
  end.

Definition mutate_events (c : mutate_call)
  (evs : list (stream_event (list entry_status))) : mutate_state :=
  foldl (mutate_step c) (MutateState [] []) evs.

(** What the caller observes of one call: the emitter's events and the
    invocations of its callback. *)
Record mutate_result := MutateResult {
  mr_emitted : list emitter_event;
  mr_calls : list (callback_call failure)
}.

Definition mutate_run (c : mutate_call) (r : response (list entry_status))
  : mutate_result :=
  let st := mutate_events c (events_of r) in
  MutateResult (emitted st)
    (if mc_isCallbackMode c then deliver (out st) else []).

(** ** Table.prototype.insert *)

Definition insert (h : gmap addr (props Data)) (this : Table)
  (entries : value) (cb : callback) : mutate_call :=
  let '(h', entries) := map_st (propAssign_method INSERT) h (arrify entries) in
  mutate h' this (VArr (fresh_addr h' entries) entries) cb.

(** The same in the words of the specification: [mutate], on the arrified
    input, in a store where the method of every entry of that input is the
    insert constant. *)
Definition tagged (h : gmap addr (props Data)) (vs : list value)
  : gmap addr (props Data) :=
  list_to_map
    (map (fun v => (addr_of v, set_method INSERT (read h (addr_of v)))) vs) ∪ h.

Definition insert_spec (h : gmap addr (props Data)) (this : Table)
  (entries : value) (cb : callback) : mutate_call :=
  mutate (tagged h (arrify entries)) this
    (VArr (fresh_addr (tagged h (arrify entries)) (arrify entries)) (arrify entries)) cb.

(** ** Table.prototype.row *)

Record Row := MkRow {
  r_table : Table;
  r_key : string;
  r_data : option Data
}.

(** A string is falsy when it is empty, a number when it is 0, and
    [undefined] always. *)
Definition truthy_str (s : option string) : bool :=
  match s with
  | Some s => negb (String.eqb s "")
  | None => false
  end.

Definition truthy_num (n : option Z) : bool :=
  match n with
  | Some z => negb (z =? 0)%Z
  | None => false
  end.

Definition row (this : Table) (k : string) : string + Row :=
  if negb (truthy_str (Some k)) then inl "A row key must be provided."
  else inr (MkRow this k None).

(** ** Table.prototype.getRows *)

Record range := Range {
  start : option string;
  end_ : option string
}.

Record read_options := Options {
  o_keys : option (list string);
  o_start : option string;
  o_end : option string;
  o_ranges : option (list range);
  o_filter : option FilterSpec;
  o_limit : option Z;
  o_interleave : option bool;
  o_decode : option bool
}.

Definition no_options : read_options :=
  Options None None None None None None None None.

(** The first argument of [getRows]: the callback, an options object, or
    nothing. *)
Inductive getRows_arg :=
  | ArgFunction
  | ArgOptions (o : read_options)
  | ArgUndefined.

Record row_set := RowSet {
  rowKeys : option (list Bytes);
  rowRanges : option (list RowRange)
}.

Record getRows_reqOpts := GetRowsReqOpts {
  g_tableName : string;
  g_objectMode : bool;
  g_rows : option row_set;
  g_filter : option FilterProto;
  g_numRowsLimit : option Z
}.

Record getRows_call := GetRowsCall {
  gc_this : Table;
  gc_options : read_options;
  gc_opened : list (grpc_opts * getRows_reqOpts);
  gc_completion : completion;
  gc_callback : bool
}.

(** The first lines: the callback may come first, and [options.ranges]
    defaults to a new array. *)
Definition getRows_args (arg : getRows_arg) (cb : callback) : read_options * callback :=
  let '(options, cb) :=
    match arg with
    | ArgFunction => (no_options, Callback)
    | ArgOptions o => (o, cb)
    | ArgUndefined => (no_options, cb)
    end in
  (Options (o_keys options) (o_start options) (o_end options)
     (Some (default [] (o_ranges options)))
     (o_filter options) (o_limit options) (o_interleave options) (o_decode options),
   cb).

(** [options.ranges.push({start, end})]: the array is extended in place. *)
Definition push_shorthand (options : read_options) : read_options :=
  if truthy_str (o_start options) || truthy_str (o_end options)
  then Options (o_keys options) (o_start options) (o_end options)
         (Some (default [] (o_ranges options) ++ [Range (o_start options) (o_end options)]))
         (o_filter options) (o_limit options) (o_interleave options) (o_decode options)
  else options.

Definition getRows_rows (options : read_options) : option row_set :=
  let ranges := default [] (o_ranges options) in
  if bool_decide (is_Some (o_keys options)) || negb (length ranges =? 0)%nat
  then Some (RowSet
               (match o_keys options with
                | Some ks => Some (map convertToBytes ks)
                | None => None
                end)
               (if negb (length ranges =? 0)%nat
                then Some (map (fun r => createRange (start r) (end_ r)) ranges)
                else None))
  else None.

Definition getRows (this : Table) (arg : getRows_arg) (cb : callback) : getRows_call :=
  let '(options, cb) := getRows_args arg cb in
  let grpcOpts := GrpcOpts "Bigtable" "readRows" in
  let options := push_shorthand options in
  let reqOpts :=
    GetRowsReqOpts (t_id this) true
      (getRows_rows options)
      (match o_filter options with
       | Some f => Some (Filter_parse f)
       | None => None
       end)
      (if truthy_num (o_limit options) then o_limit options else None) in
  GetRowsCall this options [(grpcOpts, reqOpts)]
    (Returns (if is_function cb then RetUndefined else RetStream))
    (is_function cb).

(** The events of [stream] so far, and the exception that escaped the
    through stage, if one did. *)
Record getRows_state := GetRowsState {
  g_out : list (stream_event Row);
  g_thrown : option string
}.

(** [rows.forEach]: each row is wrapped by [self.row] and pushed; [self.row]
    throws on a falsy key, which ends the loop. *)
Fixpoint forEach_row (this : Table) (st : getRows_state)
  (rows : list (string * Data)) : getRows_state :=
  match rows with
  | [] => st
  | rowData :: rest =>
      match row this (fst rowData) with
      | inl msg => GetRowsState (g_out st) (Some msg)
      | inr r =>
          forEach_row this
            (GetRowsState
               (g_out st ++ [OnData (MkRow (r_table r) (r_key r) (Some (snd rowData)))])
               (g_thrown st))
            rest
      end
  end.


Definition getRows_step (c : getRows_call) (st : getRows_state)
  (ev : stream_event Chunks) : getRows_state :=
  match g_thrown st with
  | Some _ => st
  | None =>
      match ev with
      | OnData chunks =>
          forEach_row (gc_this c) st (formatChunks_ chunks (o_decode (gc_options c)))
      | OnError e => GetRowsState (g_out st ++ [OnError e]) None
      | OnEnd => GetRowsState (g_out st ++ [OnEnd]) None
      end
  end.

Definition getRows_events (c : getRows_call) (evs : list (stream_event Chunks))
  : getRows_state :=
  foldl (getRows_step c) (GetRowsState [] None) evs.

(** What the caller observes: the events of the stream it was handed (when
    it passed no callback), the invocations of its callback, and an
    exception nobody caught. *)
Record getRows_result := GetRowsResult {
  gr_stream : list (stream_event Row);
  gr_calls : list (callback_call Row);
  gr_thrown : option string
}.

Definition getRows_run (c : getRows_call) (r : response Chunks) : getRows_result :=
  let st := getRows_events c (events_of r) in
  if gc_callback c
  then GetRowsResult [] (deliver (g_out st)) (g_thrown st)
  else GetRowsResult (g_out st) [] (g_thrown st).

End Model.

(** ** A concrete set of collaborators, to run the model on *)

Definition demo : Externals := {|
  Data := string;
  Err := string;
  INSERT := "insert";
  Proto := props string;
  Mutation_parse := fun p => p;
  Bytes := string;
  convertToBytes := fun s => s;
  RowRange := option string * option string;
  createRange := fun s e => (s, e);
  FilterSpec := string;
  FilterProto := string;
  Filter_parse := fun f => f;
  Chunks := list (string * string);
  formatChunks_ := fun chunks _ => chunks;
  decorateStatus_ := fun s => s
|}.

Definition prezzy : Table := MkTable "prezzy".

(** A store with one entry object, at address 7, that names no method. *)
Definition one_entry : gmap addr (props string) :=
  {[ 7 := Props (Some "alincoln") None (Some "follows:gwashington") ]}.

(** [{start: ''}]: the start key is there and is the empty string. *)
Definition empty_start : read_options (Ext := demo) :=
  Options None (Some "") None None None None None None.

(** [{keys: ['a', 'b'], ranges: [{start: 'c', end: 'f'}], start: 'x'}] *)
Definition keys_and_ranges : read_options (Ext := demo) :=
  Options (Some ["a"; "b"]) (Some "x") None
    (Some [Range (Some "c") (Some "f")]) None None None None.

(** Two messages, three statuses, all with code 0. *)
Definition all_ok : response (Ext := demo) (list entry_status) :=
  Response [[EntryStatus 0 (Status 0 ""); EntryStatus 1 (Status 0 "")];
            [EntryStatus 2 (Status 0 "")]] Finished.


(** * The rest of table.js: names, families, metadata, row deletion, samples *)

From Stdlib Require Import Ascii.

(** ** Table.formatName_ and the constructor *)

(** [s.indexOf(c)] for a one-character search string: the position of its
    first occurrence, or -1. *)
Fixpoint indexOf (s : string) (c : ascii) : Z :=
  match s with
  | EmptyString => (-1)%Z
  | String a rest =>
      if Ascii.eqb a c then 0%Z
      else
        let i := indexOf rest c in
        if (i <? 0)%Z then (-1)%Z else (i + 1)%Z
  end.

Definition formatName_ (instanceName name : string) : string :=
  if (-1 <? indexOf name "/"%char)%Z then name
  else instanceName ++ "/tables/" ++ name.

(** [new Table(instance, name)]: the id handed to [GrpcServiceObject], which
    keeps it as [this.id], is the formatted name. *)
Definition new_Table (instance_id name : string) : Table :=
  MkTable (formatName_ instance_id name).

(** [Table.VIEWS] *)
Definition VIEWS : list (string * Z) :=
  [("unspecified", 0%Z); ("name", 1%Z); ("schema", 2%Z); ("full", 4%Z)].

(** [object[name]] on an object given by its own properties, in the order
    [Object.keys] lists them. *)
Fixpoint own {V : Type} (object : list (string * V)) (name : string) : option V :=
  match object with
  | [] => None
  | (k, v) :: rest => if String.eqb k name then Some v else own rest name
  end.

(** What [Table.VIEWS[view]] evaluates to: the number of an own property,
    or something that is no view number (undefined, or a member the object
    literal inherits). *)
Inductive view_value :=
  | ViewNumber (n : Z)
  | ViewNotOwn.

Definition VIEWS_at (view : string) : view_value :=
  match own VIEWS view with
  | Some n => ViewNumber n
  | None => ViewNotOwn
  end.

(** The message of the TypeError the engine raises when a property of
    [undefined] is read or a non-function is called. *)
Definition TypeError : string := "TypeError".

(** ** Collaborators of the administrative methods *)
Class AdminExternals := {
  (** a garbage collection rule and [Family.formatRule_] *)
  Rule : Type;
  GcRule : Type;
  formatRule_ : Rule -> GcRule;
  (** the response to modifyColumnFamilies, and its [name] *)
  FamilyResp : Type;
  resp_name : FamilyResp -> option string;
  (** the response to getTable, and its [columnFamilies], key by key *)
  ColumnFamily : Type;
  TableMeta : Type;
  columnFamilies : TableMeta -> option (list (string * ColumnFamily));
  (** [offsetBytes] of a key sample *)
  Offset : Type
}.

Section Admin.
Context `{Ext : Externals} `{Adm : AdminExternals}.

(** ** Unary requests and their callbacks *)

(** [callback(err, value, apiResponse)]; [None] is [null] or [undefined]. *)
Record call3 (A R : Type) := Call3 {
  c_err : option Err;
  c_value : option A;
  c_resp : option R
}.
#[global] Arguments Call3 {A R} _ _ _.
#[global] Arguments c_err {A R} _.
#[global] Arguments c_value {A R} _.
#[global] Arguments c_resp {A R} _.

(** What a response handler did: the callback invocations, and the
    exception that escaped it, if one did. *)
Record outcome (A R : Type) := Outcome {
  o_calls : list (call3 A R);
  o_thrown : option string
}.
#[global] Arguments Outcome {A R} _ _.
#[global] Arguments o_calls {A R} _.
#[global] Arguments o_thrown {A R} _.

(** Calling [callback(...)]: a TypeError when it is not a function. *)
Definition invoke {A R : Type} (cb : callback) (args : call3 A R) : outcome A R :=
  if is_function cb then Outcome [args] None else Outcome [] (Some TypeError).

(** ** Table.prototype.family *)

Record Family (M : Type) := MkFamily {
  fam_table : Table;
  fam_name : string;
  fam_metadata : option M
}.
#[global] Arguments MkFamily {M} _ _ _.
#[global] Arguments fam_table {M} _.
#[global] Arguments fam_name {M} _.
#[global] Arguments fam_metadata {M} _.

Definition family {M : Type} (this : Table) (name : option string) : string + Family M :=
  match name with
  | Some s =>
      if negb (truthy_str name) then inl "A family name must be provided."
      else inr (MkFamily this s None)
  | None => inl "A family name must be provided."
  end.

(** ** Table.prototype.createFamily *)

(** The [rule] argument: the callback, a rule object, or nothing. *)
Inductive rule_arg :=
  | RuleFunction
  | RuleObject (r : Rule)
  | RuleNone.

(** [{id: name, create: {gcRule}}] *)
Record modification := Modification {
  mod_id : string;
  mod_create_gcRule : option GcRule
}.

Record createFamily_reqOpts := CreateFamilyReqOpts {
  cf_name : string;
  cf_modifications : list modification
}.

Record createFamily_call := CreateFamilyCall {
  cfc_this : Table;
  cfc_opened : list (grpc_opts * createFamily_reqOpts);
  cfc_completion : completion;
  cfc_callback : callback
}.

Definition createFamily (this : Table) (name : option string) (rule : rule_arg)
  (cb : callback) : createFamily_call :=
  let '(cb, rule) :=
    match rule with
    | RuleFunction => (Callback, None)
    | RuleObject r => (cb, Some r)
    | RuleNone => (cb, None)
    end in
  match name with
  | Some s =>
      if negb (truthy_str name)
      then CreateFamilyCall this [] (Throws "A name is required to create a family.") cb
      else
        let grpcOpts := GrpcOpts "BigtableTableAdmin" "modifyColumnFamilies" in
        let mod_ :=
          Modification s
            (match rule with
             | Some r => Some (formatRule_ r)
             | None => None
             end) in
        let reqOpts := CreateFamilyReqOpts (t_id this) [mod_] in
        CreateFamilyCall this [(grpcOpts, reqOpts)] (Returns RetUndefined) cb
  | None => CreateFamilyCall this [] (Throws "A name is required to create a family.") cb
  end.

(** The function handed to [this.request]. *)
Definition createFamily_respond (c : createFamily_call)
  (err : option Err) (resp : option FamilyResp)
  : outcome (Family FamilyResp) FamilyResp :=
  match err with
  | Some e => invoke (cfc_callback c) (Call3 (Some e) None resp)
  | None =>
      match resp with
      | None => Outcome [] (Some TypeError)
      | Some r =>
          match family (M := FamilyResp) (cfc_this c) (resp_name r) with
          | inl msg => Outcome [] (Some msg)
          | inr f =>
              invoke (cfc_callback c)
                (Call3 None (Some (MkFamily (fam_table f) (fam_name f) (Some r))) resp)
          end
      end
  end.

(** ** Table.prototype.deleteRows *)

(** The first argument: the callback, an options object (of which only
    [prefix] is read), or nothing. *)
Inductive deleteRows_arg :=
  | DArgFunction
  | DArgOptions (prefix : option string)
  | DArgUndefined.

Record deleteRows_reqOpts := DeleteRowsReqOpts {
  dr_name : string;
  dr_rowKeyPrefix : option Bytes;
  dr_deleteAllDataFromTable : option bool
}.

Record deleteRows_call := DeleteRowsCall {
  drc_opened : list (grpc_opts * deleteRows_reqOpts);
  drc_completion : completion;
  drc_callback : callback
}.

Definition deleteRows (this : Table) (arg : deleteRows_arg) (cb : callback)
  : deleteRows_call :=
  let '(options, cb) :=
    match arg with
    | DArgFunction => (Some None, Callback)
    | DArgOptions prefix => (Some prefix, cb)
    | DArgUndefined => (None, cb)
    end in
  let grpcOpts := GrpcOpts "BigtableTableAdmin" "dropRowRange" in
  match options with
  | None => DeleteRowsCall [] (Throws TypeError) cb
  | Some prefix =>
      let reqOpts :=
        match prefix with
        | Some p =>
            if truthy_str prefix
            then DeleteRowsReqOpts (t_id this) (Some (convertToBytes p)) None
            else DeleteRowsReqOpts (t_id this) None (Some true)
        | None => DeleteRowsReqOpts (t_id this) None (Some true)
        end in
      DeleteRowsCall [(grpcOpts, reqOpts)] (Returns RetUndefined) cb
  end.

(** ** Table.prototype.getMetadata *)

(** The first argument: the callback, an options object (of which only
    [view] is read), or nothing. *)
Inductive getMetadata_arg :=
  | MArgFunction
  | MArgOptions (view : option string)
  | MArgUndefined.

Record getMetadata_reqOpts := GetMetadataReqOpts {
  gm_name : string;
  gm_view : view_value
}.

Record getMetadata_call := GetMetadataCall {
  gmc_opened : list (grpc_opts * getMetadata_reqOpts);
  gmc_completion : completion;
  gmc_callback : callback
}.

Definition getMetadata (this : Table) (arg : getMetadata_arg) (cb : callback)
  : getMetadata_call :=
  let '(options, cb) :=
    match arg with
    | MArgFunction => (Some None, Callback)
    | MArgOptions view => (Some view, cb)
    | MArgUndefined => (None, cb)
    end in
  let protoOpts := GrpcOpts "BigtableTableAdmin" "getTable" in
  match options with
  | None => GetMetadataCall [] (Throws TypeError) cb
  | Some view =>
      let reqOpts :=
        GetMetadataReqOpts (t_id this)
          (VIEWS_at (match view with
                     | Some v => if truthy_str view then v else "unspecified"
                     | None => "unspecified"
                     end)) in
      GetMetadataCall [(protoOpts, reqOpts)] (Returns RetUndefined) cb
  end.

(** The function handed to [this.request]: what becomes of [self.metadata],
    and the arguments it calls [callback] with. *)
Definition getMetadata_handler (metadata : option TableMeta)
  (err : option Err) (resp : option TableMeta)
  : option TableMeta * call3 TableMeta TableMeta :=
  match err with
  | Some e => (metadata, Call3 (Some e) None resp)
  | None => (resp, Call3 None resp resp)
  end.

Definition getMetadata_respond (c : getMetadata_call) (metadata : option TableMeta)
  (err : option Err) (resp : option TableMeta)
  : option TableMeta * outcome TableMeta TableMeta :=
  let '(metadata, args) := getMetadata_handler metadata err resp in
  (metadata, invoke (gmc_callback c) args).

(** ** Table.prototype.getFamilies *)

(** [Object.keys(columnFamilies).map(function(familyId) {...})] *)
Fixpoint map_families (this : Table) (columnFamilies : list (string * ColumnFamily))
  (keys : list string) : string + list (Family ColumnFamily) :=
  match keys with
  | [] => inr []
  | familyId :: rest =>
      match family (M := ColumnFamily) this (Some familyId) with
      | inl msg => inl msg
      | inr f =>
          match map_families this columnFamilies rest with
          | inl msg => inl msg
          | inr families =>
              inr (MkFamily (fam_table f) (fam_name f) (own columnFamilies familyId)
                   :: families)
          end
      end
  end.

Record getFamilies_call := GetFamiliesCall {
  gfc_this : Table;
  gfc_metadata_call : getMetadata_call;
  gfc_callback : callback
}.

Definition getFamilies (this : Table) (cb : callback) : getFamilies_call :=
  GetFamiliesCall this (getMetadata this MArgFunction NoCallback) cb.

(** The function [getFamilies] hands to [getMetadata]; its second parameter
    is named [resp]. *)
Definition getFamilies_inner (c : getFamilies_call)
  (err : option Err) (resp : option TableMeta)
  : outcome (list (Family ColumnFamily)) TableMeta :=
  match err with
  | Some e => invoke (gfc_callback c) (Call3 (Some e) None resp)
  | None =>
      match resp with
      | None => Outcome [] (Some TypeError)
      | Some r =>
          match columnFamilies r with
          | None => Outcome [] (Some TypeError)
          | Some cfs =>
              match map_families (gfc_this c) cfs (map fst cfs) with
              | inl msg => Outcome [] (Some msg)
              | inr families => invoke (gfc_callback c) (Call3 None (Some families) resp)
              end
          end
      end
  end.

Definition getFamilies_respond (c : getFamilies_call) (metadata : option TableMeta)
  (err : option Err) (resp : option TableMeta)
  : option TableMeta * outcome (list (Family ColumnFamily)) TableMeta :=
  let '(metadata, args) := getMetadata_handler metadata err resp in
  if is_function (gmc_callback (gfc_metadata_call c))
  then (metadata, getFamilies_inner c (c_err args) (c_value args))
  else (metadata, Outcome [] (Some TypeError)).

(** ** Table.prototype.sampleRowKeys *)

Record raw_sample := RawSample {
  rowKey : Bytes;
  offsetBytes : Offset
}.

Record SampleKey := MkSampleKey {
  s_key : Bytes;
  s_offset : Offset
}.

Record sampleRowKeys_reqOpts := SampleReqOpts {
  s_tableName : string;
  s_objectMode : bool
}.

Record sampleRowKeys_call := SampleCall {
  sc_opened : list (grpc_opts * sampleRowKeys_reqOpts);
  sc_completion : completion;
  sc_callback : bool
}.

Definition sampleRowKeys (this : Table) (cb : callback) : sampleRowKeys_call :=
  let grpcOpts := GrpcOpts "Bigtable" "sampleRowKeys" in
  let reqOpts := SampleReqOpts (t_id this) true in
  SampleCall [(grpcOpts, reqOpts)]
    (Returns (if is_function cb then RetUndefined else RetStream))
    (is_function cb).

(** One event of the request stream: the through stage renames the fields
    of each item and passes it on. *)
Definition sample_step (out : list (stream_event SampleKey))
  (ev : stream_event raw_sample) : list (stream_event SampleKey) :=
  match ev with
  | OnData k => out ++ [OnData (MkSampleKey (rowKey k) (offsetBytes k))]
  | OnError e => out ++ [OnError e]
  | OnEnd => out ++ [OnEnd]
  end.

Record sampleRowKeys_result := SampleResult {
  sr_stream : list (stream_event SampleKey);
  sr_calls : list (callback_call SampleKey)
}.

Definition sampleRowKeys_run (c : sampleRowKeys_call) (r : response raw_sample)
  : sampleRowKeys_result :=
  let out := foldl sample_step [] (events_of r) in
  if sc_callback c then SampleResult [] (deliver out) else SampleResult out [].

End Admin.

Definition demo_admin : AdminExternals := {|
  Rule := string;
  GcRule := string;
  formatRule_ := fun r => r;
  FamilyResp := string;
  resp_name := fun r => Some r;
  ColumnFamily := string;
  TableMeta := list (string * string);
  columnFamilies := fun m => Some m;
  Offset := string
|}.

(** * mutate with an encoder that may throw *)

Section Encoder.
Context `{Ext : Externals}.

(** [entries.map(parse)] for a [parse] that returns the wire form or throws:
    the entries are encoded in order and the first exception ends the map. *)
Fixpoint map_parse (parse : props Data -> string + Proto)
  (h : gmap addr (props Data)) (entries : list value) : string + list Proto :=
  match entries with
  | [] => inr []
  | entry :: rest =>
      match parse (read h (addr_of entry)) with
      | inl msg => inl msg
      | inr proto =>
          match map_parse parse h rest with
          | inl msg => inl msg
          | inr protos => inr (proto :: protos)
          end
      end
  end.

(** [Table.prototype.mutate] with [Mutation.parse] given as such a function.
    [reqOpts] is built, and every entry encoded, before [this.requestStream]
    is called: an exception of the encoder leaves [mutate] there, with no
    request opened. *)
Definition mutate_with (parse : props Data -> string + Proto)
  (h : gmap addr (props Data)) (this : Table) (entries : value) (cb : callback)
  : mutate_call :=
  let entries := flatten (arrify entries) in
  let grpcOpts := GrpcOpts "Bigtable" "mutateRows" in
  match map_parse parse h entries with
  | inl msg => MutateCall h [] (Throws msg) entries (is_function cb)
  | inr protos =>
      let reqOpts := MutateReqOpts true (t_id this) protos in
      let isCallbackMode := is_function cb in
      MutateCall h [(grpcOpts, reqOpts)]
        (Returns (if isCallbackMode then RetUndefined else RetEmitter))
        entries isCallbackMode
  end.

End Encoder.

(** An encoder that throws on an insert without data and otherwise returns
    the entry's properties. *)
Definition demo_encoder (p : props string) : string + props string :=
  match method p, data p with
  | Some m, None => if String.eqb m "insert" then inl TypeError else inr p
  | _, _ => inr p
  end.


(** A store with one entry object, at address 7, that asks for an insert
    and has no data. *)
Definition insert_without_data : gmap addr (props string) :=
  {[ 7 := Props (Some "alincoln") (Some "insert") None ]}.

Section Facts.
Context `{Ext : Externals}.

Implicit Types (h : gmap addr (props Data)) (v : value) (vs : list value).

(** *** flatten *)

Lemma flatten_flat_map vs : flatten vs = flat_map arrify vs.
Proof.
  induction vs as [|[a|a elems] rest IH]; simpl; [done| |]; by rewrite IH.
Qed.

Lemma flatten_leaves vs : flat_map leaves (flatten vs) = flat_map leaves vs.
Proof.
  induction vs as [|[a|a elems] rest IH]; simpl; [done| |].
  - by rewrite IH.
  - by rewrite flat_map_app, IH.
Qed.

Lemma arrify_leaves v : flat_map leaves (arrify v) = leaves v.
Proof. by destruct v. Qed.

Lemma plain_elems vs :
  forallb is_plain vs = true -> vs = map VObj (flat_map leaves vs).
Proof.
  induction vs as [|[a|a elems] rest IH]; simpl; [done| |done].
  intros Hrest. by rewrite <- IH.
Qed.

(** On a list nested at most one level deep, [flatten] returns the caller's
    plain objects, left to right. *)
Lemma flatten_shallow vs :
  forallb shallow vs = true -> flatten vs = map VObj (flat_map leaves vs).
Proof.
  induction vs as [|[a|a elems] rest IH]; simpl; [done| |].
  - intros Hrest. by rewrite IH.
  - intros [Helems Hrest]%andb_prop. rewrite IH by done.
    rewrite map_app. f_equal. by apply plain_elems.
Qed.

(** *** the concat sink *)

Lemma sink_collects {A : Type} (xs b : list A) (cs : list (callback_call A)) :
  foldl sink_step (Sink b cs) (map OnData xs) = Sink (b ++ xs) cs.
Proof.
  revert b. induction xs as [|x xs IH]; intros b; simpl.
  - by rewrite app_nil_r.
  - rewrite IH. by rewrite <- app_assoc.
Qed.

Lemma deliver_end {A : Type} (xs : list A) :
  deliver (map OnData xs ++ [OnEnd]) = [CallOk xs].
Proof. unfold deliver. by rewrite foldl_app, sink_collects. Qed.

Lemma deliver_error {A : Type} (xs : list A) (e : Err) :
  deliver (map OnData xs ++ [OnError e]) = [@CallErr _ A e].
Proof. unfold deliver. by rewrite foldl_app, sink_collects. Qed.

Lemma deliver_data_only {A : Type} (xs : list A) :
  deliver (map OnData xs) = [].
Proof. unfold deliver. by rewrite sink_collects. Qed.

(** *** the through stage of mutate *)

Lemma decorated_app entries xs ys :
  decorated entries (xs ++ ys) = decorated entries xs ++ decorated entries ys.
Proof. unfold decorated. by rewrite filter_app, map_app. Qed.

Lemma on_entry_success entries mode st e :
  code (entry_st e) = 0%Z -> on_entry entries mode st e = st.
Proof. intros H. unfold on_entry. by rewrite H. Qed.

Lemma on_entry_failure entries mode st e :
  code (entry_st e) ≠ 0%Z ->
  on_entry entries mode st e =
  let status := Failure (decorateStatus_ (entry_st e)) (entries !! index e) in
  if mode
  then MutateState (emitted st) (out st ++ [OnData status])
  else MutateState (emitted st ++ [EmitError (inl status)]) (out st).
Proof.
  intros H. unfold on_entry.
  destruct (Z.eqb_spec (code (entry_st e)) 0) as [Hz|Hz]; [done|].
  by destruct mode.
Qed.

Lemma forEach_on_entry entries mode reported st :
  foldl (on_entry entries mode) st reported =
  if mode
  then MutateState (emitted st) (out st ++ map OnData (decorated entries reported))
  else MutateState (emitted st ++ map (fun f => EmitError (inl f)) (decorated entries reported))
         (out st).
Proof.
  revert st. induction reported as [|e rest IH]; intros [em ou]; simpl.
  - destruct mode; simpl; by rewrite app_nil_r.
  - unfold decorated. rewrite filter_cons.
    destruct (decide (code (entry_st e) ≠ 0%Z)) as [Hz|Hz].
    + rewrite on_entry_failure by done. rewrite IH.
      destruct mode; simpl; by rewrite <- app_assoc.
    + rewrite on_entry_success by (by destruct (decide (code (entry_st e) = 0%Z))).
      by rewrite IH.
Qed.

Lemma mutate_events_data (c : mutate_call) (msgs : list (list entry_status)) st :
  foldl (mutate_step c) st (map OnData msgs) =
  foldl (on_entry (mc_entries c) (mc_isCallbackMode c)) st (concat msgs).
Proof.
  revert st. induction msgs as [|m msgs IH]; intros st; simpl; [done|].
  by rewrite IH, foldl_app.
Qed.

Lemma mutate_events_response (c : mutate_call) (r : response (list entry_status)) :
  mutate_events c (events_of r) =
  let fs := decorated (mc_entries c) (concat (messages r)) in
  if mc_isCallbackMode c
  then MutateState []
         (map OnData fs ++
          [match termination r with Finished => OnEnd | Failed e => OnError e end])
  else MutateState
         (map (fun f => EmitError (inl f)) fs ++
          [match termination r with
           | Finished => EmitComplete
           | Failed e => EmitError (inr e)
           end])
         [match termination r with Finished => OnEnd | Failed e => OnError e end].
Proof.
  unfold mutate_events, events_of. rewrite foldl_app, mutate_events_data, forEach_on_entry.
  destruct (mc_isCallbackMode c) eqn:Hm, (termination r); simpl; by rewrite Hm.
Qed.

Lemma mutate_run_callback (c : mutate_call) (r : response (list entry_status)) :
  mc_isCallbackMode c = true ->
  mutate_run c r =
  MutateResult []
    [match termination r with
     | Finished => CallOk (decorated (mc_entries c) (concat (messages r)))
     | Failed e => CallErr e
     end].
Proof.
  intros Hm. unfold mutate_run. rewrite mutate_events_response, Hm. simpl.
  destruct (termination r); by rewrite ?deliver_end, ?deliver_error.
Qed.

Lemma mutate_run_emitter (c : mutate_call) (r : response (list entry_status)) :
  mc_isCallbackMode c = false ->
  mutate_run c r =
  MutateResult
    (map (fun f => EmitError (inl f)) (decorated (mc_entries c) (concat (messages r))) ++
     [match termination r with
      | Finished => EmitComplete
      | Failed e => EmitError (inr e)
      end])
    [].
Proof.
  intros Hm. unfold mutate_run. by rewrite mutate_events_response, Hm.
Qed.

(** *** tagging in place *)

Lemma set_method_idemp val (p : props Data) :
  set_method val (set_method val p) = set_method val p.
Proof. done. Qed.

Lemma read_insert h a b p :
  read (<[a := p]> h) b = if decide (a = b) then p else read h b.
Proof. unfold read. rewrite lookup_insert. by case_decide. Qed.

Lemma if_elem_of_cons {B : Type} (a b : addr) (l : list addr) (x y : B) :
  (if decide (b ∈ a :: l) then x else y) =
  if decide (a = b) then x else if decide (b ∈ l) then x else y.
Proof.
  destruct (decide (a = b)) as [->|Hne].
  - by rewrite decide_True by apply list_elem_of_here.
  - destruct (decide (b ∈ l)) as [Hin|Hin].
    + by rewrite decide_True by (by apply list_elem_of_further).
    + rewrite decide_False; [done|]. intros [?|?]%elem_of_cons; congruence.
Qed.

Lemma tagged_lookup h vs b :
  tagged h vs !! b =
  if decide (b ∈ map addr_of vs) then Some (set_method INSERT (read h b)) else h !! b.
Proof.
  unfold tagged. rewrite lookup_union.
  assert (list_to_map (M := gmap addr (props Data))
            (map (fun v => (addr_of v, set_method INSERT (read h (addr_of v)))) vs) !! b =
          if decide (b ∈ map addr_of vs)
          then Some (set_method INSERT (read h b)) else None) as ->.
  { induction vs as [|v rest IH]; cbn [map].
    - rewrite list_to_map_nil, lookup_empty.
      case_decide as Hin; [by apply elem_of_nil in Hin | done].
    - rewrite list_to_map_cons, lookup_insert, IH, if_elem_of_cons.
      by destruct (decide (addr_of v = b)) as [->|Hne]. }
  case_decide; by destruct (h !! b).
Qed.

Lemma tagged_read h vs b :
  read (tagged h vs) b =
  if decide (b ∈ map addr_of vs) then set_method INSERT (read h b) else read h b.
Proof. unfold read at 1. rewrite tagged_lookup. by case_decide. Qed.

Lemma map_propAssign h vs :
  map_st (propAssign_method INSERT) h vs = (tagged h vs, vs).
Proof.
  revert h. induction vs as [|v rest IH]; intros h.
  - cbn [map_st]. f_equal. unfold tagged. cbn [map]. rewrite list_to_map_nil.
    by rewrite (left_id_L ∅ (∪)).
  - cbn [map_st propAssign_method]. rewrite IH. f_equal. apply map_eq. intros b.
    rewrite !tagged_lookup. cbn [map].
    rewrite read_insert, lookup_insert, if_elem_of_cons.
    destruct (decide (addr_of v = b)) as [->|Hne]; by repeat case_decide.
Qed.

Lemma insert_is_mutate h this E cb :
  insert h this E cb =
  mutate (tagged h (arrify E)) this
    (VArr (fresh_addr (tagged h (arrify E)) (arrify E)) (arrify E)) cb.
Proof. unfold insert. by rewrite map_propAssign. Qed.

(** *** the through stage of getRows *)

Lemma row_ok this k : k ≠ "" -> row this k = inr (MkRow this k None).
Proof.
  intros Hk. unfold row, truthy_str.
  destruct (String.eqb_spec k "") as [->|_]; [done|]. done.
Qed.




End Facts.

(** * The mutate pipeline *)

Section MutateClaims.
Context `{Ext : Externals}.

Implicit Types (h : gmap addr (props Data)) (E : value).

Lemma map_parse_returns (parse : props Data -> string + Proto) h (entries : list value) :
  Forall (fun entry => ∃ proto, parse (read h (addr_of entry)) = inr proto) entries ->
  ∃ protos,
    map_parse parse h entries = inr protos ∧
    Forall2 (fun entry proto => parse (read h (addr_of entry)) = inr proto) entries protos.
Proof.
  induction 1 as [|entry rest [proto Hproto] _ (protos & Hrest & Hall)]; simpl.
  - exists []. by split.
  - exists (proto :: protos). rewrite Hproto, Hrest. split; [done|]. by constructor.
Qed.

Lemma map_parse_throws (parse : props Data -> string + Proto) h (entries : list value) :
  Exists (fun entry => ∃ msg, parse (read h (addr_of entry)) = inl msg) entries ->
  ∃ msg, map_parse parse h entries = inl msg.
Proof.
  induction 1 as [entry rest [msg Hmsg]|entry rest _ [msg Hrest]]; simpl.
  - rewrite Hmsg. by eexists.
  - destruct (parse (read h (addr_of entry))); [by eexists|]. rewrite Hrest. by eexists.
Qed.

(** With an encoder that never throws, this is [mutate]. *)
Lemma mutate_with_total h this E cb :
  mutate_with (fun p => inr (Mutation_parse p)) h this E cb = mutate h this E cb.
Proof.
  unfold mutate_with, mutate.
  assert (∀ entries : list value,
            map_parse (fun p => inr (Mutation_parse p)) h entries =
            inr (map (fun entry => Mutation_parse (read h (addr_of entry))) entries)) as ->.
  { induction entries as [|entry rest IH]; simpl; [done|]. by rewrite IH. }
  done.
Qed.

(** When the encoder throws on some entry, [mutate] throws and opens no
    request. *)
Lemma mutate_with_encoder_throws (parse : props Data -> string + Proto) h this E cb :
  Exists (fun entry => ∃ msg, parse (read h (addr_of entry)) = inl msg)
         (flatten (arrify E)) ->
  fails_at_construction (mutate_with parse h this E cb).
Proof.
  intros [msg Hmsg]%map_parse_throws. unfold mutate_with. rewrite Hmsg.
  split; [done|]. by eexists.
Qed.

(** C1, as amended: [mutate] checks no entry count. Whenever the encoder
    returns for every flattened entry, whatever their number, none or more
    than 100,000 included, the call returns normally after opening exactly
    one mutateRows request, and the request carries the encoded entries, one
    per flattened entry and in order: nothing is rejected and nothing is
    dropped. *)
Theorem mutate_count_is_never_checked (parse : props Data -> string + Proto)
  h this E cb :
  Forall (fun entry => ∃ proto, parse (read h (addr_of entry)) = inr proto)
         (flatten (arrify E)) ->
  ∃ protos,
    Forall2 (fun entry proto => parse (read h (addr_of entry)) = inr proto)
            (flatten (arrify E)) protos ∧
    length protos = length (flatten (arrify E)) ∧
    mc_opened (mutate_with parse h this E cb) =
      [(GrpcOpts "Bigtable" "mutateRows", MutateReqOpts true (t_id this) protos)] ∧
    mc_completion (mutate_with parse h this E cb) =
      Returns (if is_function cb then RetUndefined else RetEmitter) ∧
    ¬ fails_at_construction (mutate_with parse h this E cb).
Proof.
  intros (protos & Hprotos & Hall)%map_parse_returns.
  exists protos. split; [done|]. split; [symmetry; by eapply Forall2_length|].
  unfold mutate_with. rewrite Hprotos. simpl. split; [done|]. split; [done|].
  by intros [? _].
Qed.

(** C2, as amended: [mutate] leaves the store as it found it. [insert] tags
    in place: in the store it leaves, every element of the arrified input
    has [method] set to the insert constant and [key] and [data] as before,
    and every other object is as before; the array handed on is a new one
    holding the caller's own objects, and the wire encoding reads those
    objects as tagged. *)
Theorem insert_tags_in_place h this E cb :
  mc_store (mutate h this E cb) = h ∧
  (∀ a, read (mc_store (insert h this E cb)) a =
        if decide (a ∈ map addr_of (arrify E))
        then Props (key (read h a)) (Some INSERT) (data (read h a))
        else read h a) ∧
  mc_entries (insert h this E cb) = flatten (arrify E) ∧
  ∃ reqOpts,
    mc_opened (insert h this E cb) = [(GrpcOpts "Bigtable" "mutateRows", reqOpts)] ∧
    m_entries reqOpts =
      map (fun entry =>
             Mutation_parse (read (mc_store (insert h this E cb)) (addr_of entry)))
          (flatten (arrify E)).
Proof.
  rewrite insert_is_mutate. split; [done|]. split; [|split].
  - intros a. simpl. by rewrite tagged_read.
  - done.
  - by eexists.
Qed.

(** C3: flattening keeps the entries in the order they were passed (the
    flattened list is the elements of the arrified input, each array among
    them replaced by its own elements, so the objects read left to right are
    the same before and after), and every status reported with a non-zero
    code is handed on with [entry] set to the element of the flattened list
    at the reported index, the very object the caller passed: as the
    callback's list on normal completion, as ['error'] events otherwise. *)
Theorem mutate_failures_carry_original_entries h this E (r : response (list entry_status)) :
  flatten (arrify E) = flat_map arrify (arrify E) ∧
  flat_map leaves (flatten (arrify E)) = leaves E ∧
  mr_calls (mutate_run (mutate h this E Callback) r) =
    [match termination r with
     | Finished =>
         CallOk
           (map (fun e => Failure (decorateStatus_ (entry_st e))
                                  (flatten (arrify E) !! index e))
                (filter (fun e => code (entry_st e) ≠ 0%Z) (concat (messages r))))
     | Failed err => CallErr err
     end] ∧
  mr_emitted (mutate_run (mutate h this E NoCallback) r) =
    map (fun e => EmitError (inl (Failure (decorateStatus_ (entry_st e))
                                          (flatten (arrify E) !! index e))))
        (filter (fun e => code (entry_st e) ≠ 0%Z) (concat (messages r))) ++
    [match termination r with
     | Finished => EmitComplete
     | Failed err => EmitError (inr err)
     end].
Proof.
  split; [apply flatten_flat_map|]. split; [by rewrite flatten_leaves, arrify_leaves|].
  split.
  - by rewrite mutate_run_callback.
  - rewrite mutate_run_emitter by done. simpl. unfold decorated. by rewrite map_map.
Qed.

(** C4: a status whose code is 0 goes through the through stage without a
    trace: nothing is pushed, nothing is emitted. So when every reported code
    is 0 and the stream completes, the callback is invoked once with
    [(null, [])] in callback mode, and in emitter mode the only event is one
    ['complete']. *)
Theorem mutate_all_success h this E cb (r : response (list entry_status)) :
  (∀ st e, code (entry_st e) = 0%Z ->
           on_entry (flatten (arrify E)) (is_function cb) st e = st) ∧
  (Forall (fun e => code (entry_st e) = 0%Z) (concat (messages r)) ->
   termination r = Finished ->
   mutate_run (mutate h this E cb) r =
     match cb with
     | Callback => MutateResult [] [CallOk []]
     | NoCallback => MutateResult [EmitComplete] []
     end).
Proof.
  split.
  - intros st e Hcode. by apply on_entry_success.
  - intros Hall Hfin.
    assert (decorated (flatten (arrify E)) (concat (messages r)) = []) as Hnone.
    { unfold decorated. induction Hall as [|e rest He _ IH]; [done|].
      rewrite filter_cons. by rewrite decide_False by (intros Hn; by apply Hn). }
    destruct cb.
    + rewrite mutate_run_callback by done. simpl. by rewrite Hnone, Hfin.
    + rewrite mutate_run_emitter by done. simpl. by rewrite Hnone, Hfin.
Qed.

(** C5: called without a callback, [mutate] returns the emitter, whatever
    the stream does later. After any number of messages the emitter has
    received exactly the decorated failures of those messages as ['error']
    events, in order, and the stream has been handed nothing to buffer. A
    stream-level error is one more ['error'] event; normal completion is one
    ['complete'] event, which has no payload and is the only one. The
    callback list stays empty. *)
Theorem mutate_emitter_mode h this E (r : response (list entry_status)) :
  mc_completion (mutate h this E NoCallback) = Returns RetEmitter ∧
  (∀ n,
     mutate_events (mutate h this E NoCallback) (map OnData (take n (messages r))) =
     MutateState
       (map (fun f => EmitError (inl f))
            (decorated (flatten (arrify E)) (concat (take n (messages r)))))
       []) ∧
  mr_emitted (mutate_run (mutate h this E NoCallback) r) =
    map (fun f => EmitError (inl f))
        (decorated (flatten (arrify E)) (concat (messages r))) ++
    [match termination r with
     | Finished => EmitComplete
     | Failed err => EmitError (inr err)
     end] ∧
  (EmitComplete ∉
    map (fun f => EmitError (inl f))
        (decorated (flatten (arrify E)) (concat (messages r)))) ∧
  mr_calls (mutate_run (mutate h this E NoCallback) r) = [].
Proof.
  split; [done|]. split; [|split; [|split]].
  - intros n. unfold mutate_events. by rewrite mutate_events_data, forEach_on_entry.
  - by rewrite mutate_run_emitter.
  - intros (f & Hf & _)%list_elem_of_fmap. discriminate.
  - by rewrite mutate_run_emitter.
Qed.

(** C9: [insert] is [mutate] on the arrified input with every entry's method
    set to the insert constant: the call it makes and everything a response
    then triggers are those of that [mutate] call. *)
Theorem insert_refines_mutate h this E cb :
  insert h this E cb = insert_spec h this E cb ∧
  ∀ r, mutate_run (insert h this E cb) r = mutate_run (insert_spec h this E cb) r.
Proof.
  assert (insert h this E cb = insert_spec h this E cb) as Heq
    by (unfold insert_spec; apply insert_is_mutate).
  split; [done|]. intros r. by rewrite Heq.
Qed.

End MutateClaims.

(** * The read pipeline *)

Section ReadClaims.
Context `{Ext : Externals}.

(** C6, as amended: when [start] or [end] is truthy (there, and not the
    empty string), the pair is pushed onto [options.ranges]: the array then
    holds the explicit ranges in their order followed by the shorthand range,
    and the request's row-range list is the encoding of exactly that array,
    one element longer than the explicit list. *)
Theorem getRows_shorthand_appended this (options : read_options) cb :
  truthy_str (o_start options) || truthy_str (o_end options) = true ->
  o_ranges (gc_options (getRows this (ArgOptions options) cb)) =
    Some (default [] (o_ranges options) ++ [Range (o_start options) (o_end options)]) ∧
  ∃ reqOpts rows ranges,
    gc_opened (getRows this (ArgOptions options) cb) =
      [(GrpcOpts "Bigtable" "readRows", reqOpts)] ∧
    g_rows reqOpts = Some rows ∧
    rowRanges rows = Some ranges ∧
    ranges =
      map (fun r => createRange (start r) (end_ r)) (default [] (o_ranges options)) ++
      [createRange (o_start options) (o_end options)] ∧
    length ranges = length (default [] (o_ranges options)) + 1.
Proof.
  intros Htruthy. unfold getRows, getRows_args, push_shorthand. simpl. rewrite Htruthy.
  simpl. split; [done|]. unfold getRows_rows. simpl.
  assert ((length (default [] (o_ranges options) ++
                   [Range (o_start options) (o_end options)]) =? 0)%nat = false) as Hlen.
  { apply Nat.eqb_neq. rewrite length_app. simpl. lia. }
  rewrite Hlen, orb_true_r. simpl. rewrite map_app. simpl.
  eexists _, _, _. split; [reflexivity|]. split; [reflexivity|].
  split; [reflexivity|]. split; [reflexivity|].
  by rewrite length_app, length_map.
Qed.

(** C7: with a non-empty [keys] list and a range list that is non-empty once
    the shorthand is taken in, the request has both the byte-encoded keys and
    the encoded ranges: neither suppresses the other. *)
Theorem getRows_keys_and_ranges_additive this (options : read_options) cb ks :
  o_keys options = Some ks ->
  ks ≠ [] ->
  default [] (o_ranges options) ≠ [] ∨
    truthy_str (o_start options) || truthy_str (o_end options) = true ->
  ∃ reqOpts ranges,
    gc_opened (getRows this (ArgOptions options) cb) =
      [(GrpcOpts "Bigtable" "readRows", reqOpts)] ∧
    ranges =
      default [] (o_ranges options) ++
      (if truthy_str (o_start options) || truthy_str (o_end options)
       then [Range (o_start options) (o_end options)] else []) ∧
    ranges ≠ [] ∧
    g_rows reqOpts =
      Some (RowSet (Some (map convertToBytes ks))
                   (Some (map (fun r => createRange (start r) (end_ r)) ranges))) ∧
    map convertToBytes ks ≠ [].
Proof.
  intros Hks Hne Hranges.
  unfold getRows, getRows_args, push_shorthand, getRows_rows. simpl.
  destruct (truthy_str (o_start options) || truthy_str (o_end options)) eqn:Htruthy;
    simpl; rewrite Hks; simpl.
  - assert ((length (default [] (o_ranges options) ++
                     [Range (o_start options) (o_end options)]) =? 0)%nat = false) as ->.
    { apply Nat.eqb_neq. rewrite length_app. simpl. lia. }
    simpl. eexists _, _. split; [reflexivity|]. split; [reflexivity|].
    split; [by intros [_ H]%app_eq_nil|]. split; [reflexivity|]. by destruct ks.
  - destruct Hranges as [Hexp|Hsh]; [|done].
    assert ((length (default [] (o_ranges options)) =? 0)%nat = false) as ->.
    { apply Nat.eqb_neq. by destruct (default [] (o_ranges options)). }
    simpl. eexists _, _. split; [reflexivity|]. split; [reflexivity|].
    rewrite app_nil_r. split; [done|]. split; [reflexivity|]. by destruct ks.
Qed.

Lemma getRows_fields this arg cb :
  gc_this (getRows this arg cb) = this ∧
  o_decode (gc_options (getRows this arg cb)) =
    match arg with ArgOptions o => o_decode o | _ => None end ∧
  gc_callback (getRows this arg cb) =
    match arg, cb with
    | ArgFunction, _ | _, Callback => true
    | _, NoCallback => false
    end ∧
  gc_completion (getRows this arg cb) =
    Returns match arg, cb with
            | ArgFunction, _ | _, Callback => RetUndefined
            | _, NoCallback => RetStream
            end.
Proof.
  destruct arg as [|o|], cb; unfold getRows, getRows_args, push_shorthand; simpl;
    try done; by destruct (truthy_str (o_start o) || truthy_str (o_end o)).
Qed.


(** C10: a [limit] of 0 is falsy: the request has no [numRowsLimit], and is
    the request the same options make with no [limit] at all. *)
Theorem getRows_limit_zero_is_no_limit this ks s e rs f il d cb :
  ∃ reqOpts,
    gc_opened (getRows this (ArgOptions (Options ks s e rs f (Some 0%Z) il d)) cb) =
      [(GrpcOpts "Bigtable" "readRows", reqOpts)] ∧
    g_numRowsLimit reqOpts = None ∧
    gc_opened (getRows this (ArgOptions (Options ks s e rs f None il d)) cb) =
      [(GrpcOpts "Bigtable" "readRows", reqOpts)].
Proof.
  eexists. split; [reflexivity|]. split.
  - unfold push_shorthand. simpl. by destruct (truthy_str s || truthy_str e).
  - unfold getRows, getRows_args, push_shorthand. simpl.
    by destruct (truthy_str s || truthy_str e).
Qed.

End ReadClaims.

(** * The claims on concrete calls *)

(** C1 fails on the code: [mutate([])] has no entry after flattening, and
    still opens a mutateRows request (with an empty entry list) and returns
    the emitter; nothing is thrown. *)
Lemma mutate_empty_entries_opens_request :
  length (flatten (arrify (VArr 0 []))) = 0 ∧
  mc_opened (mutate (Ext := demo) ∅ prezzy (VArr 0 []) NoCallback) =
    [(GrpcOpts "Bigtable" "mutateRows", MutateReqOpts true "prezzy" [])] ∧
  mc_completion (mutate (Ext := demo) ∅ prezzy (VArr 0 []) NoCallback) =
    Returns RetEmitter ∧
  ¬ fails_at_construction (mutate (Ext := demo) ∅ prezzy (VArr 0 []) NoCallback).
Proof.
  split; [reflexivity|]. split; [reflexivity|]. split; [reflexivity|].
  intros [Hopened _]. discriminate Hopened.
Qed.

(** The same with 100,001 entries: the request is opened. *)
Example mutate_oversize_opens_request :
  Nat.ltb 100000 (length (flatten (arrify (VArr 0 (replicate 100001 (VObj 7)))))) = true ∧
  ¬ fails_at_construction
      (mutate (Ext := demo) one_entry prezzy (VArr 0 (replicate 100001 (VObj 7))) Callback).
Proof.
  split; [vm_compute; reflexivity|]. intros [Hopened _]. discriminate Hopened.
Qed.

(** C1 as amended, with an encoder that can throw: the entry at 7 names no
    method, the encoder returns, and the request carries its encoding. *)
Lemma mutate_count_is_never_checked_witness :
  Forall (fun entry => ∃ proto, demo_encoder (read (Ext := demo) one_entry (addr_of entry))
                                = inr proto)
         (flatten (arrify (VArr 1 [VObj 7]))) ∧
  mc_opened (mutate_with (Ext := demo) demo_encoder one_entry prezzy (VArr 1 [VObj 7])
               NoCallback) =
    [(GrpcOpts "Bigtable" "mutateRows",
      MutateReqOpts (Ext := demo) true "prezzy"
        [Props (Some "alincoln") None (Some "follows:gwashington")])].
Proof.
  assert (Forall (fun entry => ∃ proto,
                    demo_encoder (read (Ext := demo) one_entry (addr_of entry)) = inr proto)
                 (flatten (arrify (VArr 1 [VObj 7])))) as Hreturns
    by (repeat constructor; by eexists).
  split; [exact Hreturns|].
  destruct (mutate_count_is_never_checked (Ext := demo) demo_encoder one_entry prezzy
              (VArr 1 [VObj 7]) NoCallback Hreturns)
    as (protos & _ & _ & Hopened & _).
  rewrite Hopened. injection Hopened as <-. reflexivity.
Defined.

(** An insert without data: the encoder throws, [mutate] throws with it and
    no request is opened, whatever the count. *)
Example mutate_encoder_throws :
  mc_opened (mutate_with (Ext := demo) demo_encoder insert_without_data prezzy
               (VArr 1 [VObj 7]) Callback) = [] ∧
  mc_completion (mutate_with (Ext := demo) demo_encoder insert_without_data prezzy
                   (VArr 1 [VObj 7]) Callback) = Throws TypeError.
Proof. split; reflexivity. Qed.

(** [flatten] goes one level down: an array two levels deep stays an element
    of the flattened list. *)
Example flatten_one_level :
  flatten (arrify (VArr 0 [VObj 7; VArr 1 [VObj 8; VArr 2 [VObj 9]]])) =
  [VObj 7; VObj 8; VArr 2 [VObj 9]].
Proof. reflexivity. Qed.

(** C2 fails on the code: [insert([entry])] writes [method] on the caller's
    own object. *)
Lemma insert_writes_method_on_callers_object :
  7 ∈ leaves (VArr 1 [VObj 7]) ∧
  read (Ext := demo) one_entry 7 =
    Props (Some "alincoln") None (Some "follows:gwashington") ∧
  read (Ext := demo)
    (mc_store (insert (Ext := demo) one_entry prezzy (VArr 1 [VObj 7]) NoCallback)) 7 =
    Props (Some "alincoln") (Some "insert") (Some "follows:gwashington") ∧
  read (Ext := demo)
    (mc_store (insert (Ext := demo) one_entry prezzy (VArr 1 [VObj 7]) NoCallback)) 7 ≠
  read (Ext := demo) one_entry 7.
Proof.
  split; [apply list_elem_of_here|]. split; [reflexivity|].
  assert (read (Ext := demo)
            (mc_store (insert (Ext := demo) one_entry prezzy (VArr 1 [VObj 7]) NoCallback)) 7 =
          Props (Some "alincoln") (Some "insert") (Some "follows:gwashington")) as Hafter
    by (vm_compute; reflexivity).
  split; [exact Hafter|]. rewrite Hafter. discriminate.
Qed.

(** C4 on a run of three successes, in callback mode. *)
Lemma mutate_all_success_witness :
  Forall (fun e => code (entry_st e) = 0%Z) (concat (messages all_ok)) ∧
  termination all_ok = Finished ∧
  mutate_run (mutate (Ext := demo) one_entry prezzy (VArr 1 [VObj 7]) Callback) all_ok =
    MutateResult [] [CallOk []].
Proof.
  assert (Forall (fun e => code (entry_st e) = 0%Z) (concat (messages all_ok))) as Hall
    by (repeat constructor).
  split; [exact Hall|]. split; [reflexivity|].
  exact (proj2 (mutate_all_success (Ext := demo) one_entry prezzy (VArr 1 [VObj 7])
                  Callback all_ok) Hall eq_refl).
Defined.

(** C6 fails on the code: in [getRows({start: ''})] the start key is there,
    and no range is appended; the request has no row set at all. *)
Lemma getRows_empty_start_adds_no_range :
  is_Some (o_start empty_start) ∧
  o_ranges (gc_options (getRows prezzy (ArgOptions empty_start) NoCallback)) = Some [] ∧
  gc_opened (getRows prezzy (ArgOptions empty_start) NoCallback) =
    [(GrpcOpts "Bigtable" "readRows", GetRowsReqOpts "prezzy" true None None None)] ∧
  ¬ ∃ g reqOpts rows ranges,
      gc_opened (getRows prezzy (ArgOptions empty_start) NoCallback) = [(g, reqOpts)] ∧
      g_rows reqOpts = Some rows ∧
      rowRanges rows = Some ranges ∧
      length ranges = length (default [] (o_ranges empty_start)) + 1.
Proof.
  split; [by eexists|]. split; [reflexivity|]. split; [reflexivity|].
  intros (g & reqOpts & rows & ranges & Hopened & Hrows & _).
  injection Hopened as _ <-. discriminate Hrows.
Qed.

(** C6 as amended, on [keys_and_ranges]: the shorthand range comes last. *)
Lemma getRows_shorthand_appended_witness :
  truthy_str (o_start keys_and_ranges) || truthy_str (o_end keys_and_ranges) = true ∧
  o_ranges (gc_options (getRows prezzy (ArgOptions keys_and_ranges) NoCallback)) =
    Some [Range (Some "c") (Some "f"); Range (Some "x") None].
Proof.
  split; [reflexivity|].
  exact (proj1 (getRows_shorthand_appended (Ext := demo) prezzy keys_and_ranges
                  NoCallback eq_refl)).
Defined.

(** C7 on [keys_and_ranges]: the request has the two keys and the two
    ranges. *)
Lemma getRows_keys_and_ranges_additive_witness :
  o_keys keys_and_ranges = Some ["a"; "b"] ∧
  ∃ reqOpts : getRows_reqOpts (Ext := demo),
    gc_opened (getRows prezzy (ArgOptions keys_and_ranges) NoCallback) =
      [(GrpcOpts "Bigtable" "readRows", reqOpts)] ∧
    g_rows reqOpts =
      Some (RowSet (Ext := demo) (Some ["a"; "b"])
                   (Some [(Some "c", Some "f"); (Some "x", None)])).
Proof.
  split; [reflexivity|].
  destruct (getRows_keys_and_ranges_additive (Ext := demo) prezzy keys_and_ranges
              NoCallback ["a"; "b"] eq_refl ltac:(discriminate)
              (or_intror eq_refl))
    as (reqOpts & ranges & Hopened & Hranges & _ & Hrows & _).
  exists reqOpts. split; [exact Hopened|]. rewrite Hrows, Hranges. reflexivity.
Defined.



(** * Table names *)

Lemma indexOf_lower s c : (-1 <= indexOf s c)%Z.
Proof.
  induction s as [|a rest IH]; simpl; [lia|].
  destruct (Ascii.eqb a c); [lia|].
  destruct (Z.ltb_spec (indexOf rest c) 0); lia.
Qed.

Lemma indexOf_app_found (s1 s2 : string) c :
  (-1 < indexOf s2 c)%Z -> (-1 < indexOf (s1 ++ s2)%string c)%Z.
Proof.
  intros Hfound. induction s1 as [|a rest IH]; simpl; [done|].
  destruct (Ascii.eqb a c); [lia|].
  destruct (Z.ltb_spec (indexOf (rest ++ s2)%string c) 0); lia.
Qed.

Lemma append_cancel_l (s a b : string) : (s ++ a)%string = (s ++ b)%string -> a = b.
Proof.
  induction s as [|c rest IH]; simpl; [done|].
  intros Heq. apply IH. by injection Heq.
Qed.

(** A formatted name always has a slash, so formatting it again, under any
    instance, gives it back: a table made from another table's id is that
    table. *)
Theorem formatName_idempotent (i j n : string) :
  (-1 < indexOf (formatName_ i n) "/"%char)%Z ∧
  formatName_ j (formatName_ i n) = formatName_ i n ∧
  new_Table j (t_id (new_Table i n)) = new_Table i n.
Proof.
  assert (-1 < indexOf (formatName_ i n) "/"%char)%Z as Hslash.
  { unfold formatName_. destruct (Z.ltb_spec (-1) (indexOf n "/"%char)); [done|].
    apply indexOf_app_found. simpl. lia. }
  assert (formatName_ j (formatName_ i n) = formatName_ i n) as Hagain.
  { unfold formatName_ at 1. by rewrite (proj2 (Z.ltb_lt _ _) Hslash). }
  split; [done|]. split; [done|]. unfold new_Table. simpl. by rewrite Hagain.
Qed.

(** Under one instance, two names without a slash that format to the same
    id are the same name. *)
Theorem formatName_injective (i n1 n2 : string) :
  indexOf n1 "/"%char = (-1)%Z ->
  indexOf n2 "/"%char = (-1)%Z ->
  formatName_ i n1 = formatName_ i n2 ->
  n1 = n2.
Proof.
  intros H1 H2. unfold formatName_. rewrite H1, H2. simpl.
  intros Heq%append_cancel_l. by apply (append_cancel_l "/tables/").
Qed.

(** With a slash in one of them the two can meet. *)
Example formatName_collision :
  formatName_ "i" "i/tables/x" = formatName_ "i" "x".
Proof. reflexivity. Qed.

Lemma formatName_injective_witness :
  indexOf "follows" "/"%char = (-1)%Z ∧ ("follows" = "follows").
Proof.
  split; [reflexivity|].
  exact (formatName_injective "projects/p/instances/i" "follows" "follows"
           eq_refl eq_refl eq_refl).
Defined.

(** * Families, metadata, row deletion, samples *)

Section AdminFacts.
Context `{Ext : Externals} `{Adm : AdminExternals}.

(** ** deleteRows *)

(** [deleteRows] throws, with no request made, exactly when it is given
    neither a function nor an options object. Otherwise it makes one
    dropRowRange request that names the table and sets exactly one of
    [rowKeyPrefix] and [deleteAllDataFromTable]: the prefix when it is a
    non-empty string, and the flag that drops every row in all other cases,
    an empty-string prefix included. *)
Theorem deleteRows_prefix_or_everything this arg cb :
  match arg with
  | DArgUndefined =>
      drc_opened (deleteRows this arg cb) = [] ∧
      drc_completion (deleteRows this arg cb) = Throws TypeError
  | _ =>
      ∃ reqOpts,
        drc_opened (deleteRows this arg cb) =
          [(GrpcOpts "BigtableTableAdmin" "dropRowRange", reqOpts)] ∧
        drc_completion (deleteRows this arg cb) = Returns RetUndefined ∧
        dr_name reqOpts = t_id this ∧
        (is_Some (dr_rowKeyPrefix reqOpts) ↔ dr_deleteAllDataFromTable reqOpts = None) ∧
        (dr_deleteAllDataFromTable reqOpts = Some true ↔
         truthy_str (match arg with DArgOptions prefix => prefix | _ => None end) = false) ∧
        (∀ p, arg = DArgOptions (Some p) -> p ≠ "" ->
              dr_rowKeyPrefix reqOpts = Some (convertToBytes p))
  end.
Proof.
  destruct arg as [|[p|]|]; simpl; [| |  |done].
  - eexists. split; [reflexivity|]. simpl. naive_solver.
  - destruct (String.eqb_spec p "") as [->|Hne]; simpl;
      (eexists; split; [reflexivity|]); simpl; naive_solver.
  - eexists. split; [reflexivity|]. simpl. naive_solver.
Qed.

(** ** createFamily *)

(** [createFamily] throws before any request exactly when the name is
    missing or empty, whatever the other arguments. Otherwise it makes one
    modifyColumnFamilies request with a single modification, whose id is the
    name and which carries a garbage collection rule exactly when a rule
    object was passed; a function in the rule's place is the callback. *)
Theorem createFamily_needs_name this name rule cb :
  if truthy_str name
  then
    ∃ s,
      name = Some s ∧
      cfc_opened (createFamily this name rule cb) =
        [(GrpcOpts "BigtableTableAdmin" "modifyColumnFamilies",
          CreateFamilyReqOpts (t_id this)
            [Modification s
               (match rule with
                | RuleObject r => Some (formatRule_ r)
                | _ => None
                end)])] ∧
      cfc_completion (createFamily this name rule cb) = Returns RetUndefined ∧
      cfc_callback (createFamily this name rule cb) =
        match rule with RuleFunction => Callback | _ => cb end
  else
    cfc_opened (createFamily this name rule cb) = [] ∧
    cfc_completion (createFamily this name rule cb) =
      Throws "A name is required to create a family.".
Proof.
  destruct name as [s|]; simpl.
  - destruct (String.eqb_spec s "") as [->|Hne]; simpl.
    + by destruct rule.
    + unfold createFamily. simpl.
      destruct (String.eqb_spec s "") as [->|_]; [done|]. simpl.
      exists s. by destruct rule.
  - by destruct rule.
Qed.

(** When the response to [createFamily] arrives, either the callback is
    invoked exactly once and nothing is thrown, or it is not invoked and
    something is thrown. An error goes to the callback with no family. A
    family handed to the callback belongs to this table, carries the
    response as its metadata and is named by the response, not by the name
    the caller asked for. *)
Theorem createFamily_response this name rule cb err (resp : option FamilyResp) :
  let c := createFamily this name rule cb in
  let o := createFamily_respond c err resp in
  ((∃ args, o_calls o = [args] ∧ o_thrown o = None) ∨
   (o_calls o = [] ∧ is_Some (o_thrown o))) ∧
  (∀ args, args ∈ o_calls o ->
     c_resp args = resp ∧ c_err args = err ∧
     match c_value args with
     | None => is_Some err
     | Some f =>
         err = None ∧ fam_table f = this ∧ fam_metadata f = resp ∧
         (resp_name <$> resp) = Some (Some (fam_name f)) ∧ fam_name f ≠ ""
     end).
Proof.
  intros c o.
  assert (cfc_this c = this) as Hthis.
  { subst c. unfold createFamily. destruct rule, name as [s|]; simpl; try done;
      by destruct (negb (negb (String.eqb s ""))). }
  subst o. unfold createFamily_respond, invoke. rewrite Hthis.
  destruct err as [e|].
  - destruct (is_function (cfc_callback c)); simpl.
    + split; [left; by eexists|]. intros args ->%list_elem_of_singleton. simpl. eauto.
    + split; [right; split; [done|by eexists]|]. by intros args ?%elem_of_nil.
  - destruct resp as [r|]; simpl.
    2: { split; [right; split; [done|by eexists]|]. by intros args ?%elem_of_nil. }
    unfold family. destruct (resp_name r) as [s|] eqn:Hname; simpl.
    2: { split; [right; split; [done|by eexists]|]. by intros args ?%elem_of_nil. }
    destruct (String.eqb_spec s "") as [->|Hne]; simpl.
    { split; [right; split; [done|by eexists]|]. by intros args ?%elem_of_nil. }
    destruct (is_function (cfc_callback c)); simpl.
    + split; [left; by eexists|]. intros args ->%list_elem_of_singleton. simpl.
      done.
    + split; [right; split; [done|by eexists]|]. by intros args ?%elem_of_nil.
Qed.

(** ** getMetadata and getFamilies *)

(** The view [getMetadata] sends, when it is a number, is one of 0, 1, 2
    and 4. It is 0 exactly when no view, an empty one or 'unspecified' is
    asked for, and it is no number exactly when the view asked for is a
    non-empty string other than the four names of [Table.VIEWS]. *)
Theorem getMetadata_view_bounds this view cb :
  ∃ reqOpts,
    gmc_opened (getMetadata this (MArgOptions view) cb) =
      [(GrpcOpts "BigtableTableAdmin" "getTable", reqOpts)] ∧
    gm_name reqOpts = t_id this ∧
    (∀ n, gm_view reqOpts = ViewNumber n -> n ∈ [0; 1; 2; 4]%Z) ∧
    (gm_view reqOpts = ViewNumber 0 ↔
     view = None ∨ view = Some "" ∨ view = Some "unspecified") ∧
    (gm_view reqOpts = ViewNotOwn ↔
     ∃ v, view = Some v ∧ v ∉ [""; "unspecified"; "name"; "schema"; "full"]).
Proof.
  eexists. split; [reflexivity|]. simpl. split; [done|].
  destruct view as [v|]; simpl.
  2: { split; [intros n [= <-]; set_solver|]. split; [naive_solver|].
       split; [done|]. by intros (v' & Heq & _). }
  destruct (String.eqb_spec v "") as [->|Hempty]; simpl.
  { split; [intros n [= <-]; set_solver|]. split; [naive_solver|].
    split; [done|]. intros (v' & Heq & Hv). simplify_eq. set_solver. }
  unfold VIEWS_at, VIEWS, own.
  destruct (String.eqb_spec "unspecified" v) as [<-|Hunspecified].
  { split; [intros n [= <-]; set_solver|]. split; [naive_solver|].
    split; [done|]. intros (v' & Heq & Hv). simplify_eq. set_solver. }
  destruct (String.eqb_spec "name" v) as [<-|Hname].
  { split; [intros n [= <-]; set_solver|].
    split; [split; [by intros [=] | by intros [?|[?|?]]]|].
    split; [done|]. intros (v' & Heq & Hv). simplify_eq. set_solver. }
  destruct (String.eqb_spec "schema" v) as [<-|Hschema].
  { split; [intros n [= <-]; set_solver|].
    split; [split; [by intros [=] | by intros [?|[?|?]]]|].
    split; [done|]. intros (v' & Heq & Hv). simplify_eq. set_solver. }
  destruct (String.eqb_spec "full" v) as [<-|Hfull].
  { split; [intros n [= <-]; set_solver|].
    split; [split; [by intros [=] | by intros [?|[?|?]]]|].
    split; [done|]. intros (v' & Heq & Hv). simplify_eq. set_solver. }
  split; [done|]. split; [split; [by intros [=] | intros [?|[?|?]]; congruence]|].
  split; [|done]. intros _. exists v. split; [done|]. intros Hin.
  repeat (apply elem_of_cons in Hin as [->|Hin]; [congruence|]).
  by apply elem_of_nil in Hin.
Qed.

Lemma own_NoDup {V : Type} (object : list (string * V)) k v :
  NoDup (map fst object) -> (k, v) ∈ object -> own object k = Some v.
Proof.
  induction object as [|[k' v'] rest IH]; simpl.
  - by intros _ ?%elem_of_nil.
  - intros [Hfresh Hrest]%NoDup_cons [[= -> ->]|Hin]%elem_of_cons.
    + by rewrite String.eqb_refl.
    + destruct (String.eqb_spec k' k) as [->|_]; [|by apply IH].
      exfalso. apply Hfresh. apply list_elem_of_fmap. by exists (k, v).
Qed.

Lemma map_families_ok this (cfs sub : list (string * ColumnFamily)) :
  NoDup (map fst cfs) ->
  Forall (fun kv => kv ∈ cfs ∧ fst kv ≠ "") sub ->
  map_families this cfs (map fst sub) =
  inr (map (fun kv => MkFamily this (fst kv) (Some (snd kv))) sub).
Proof.
  intros Hnodup Hsub. induction Hsub as [|[k v] rest [Hin Hk] _ IH]; simpl; [done|].
  simpl in Hk. destruct (String.eqb_spec k "") as [->|_]; [done|]. simpl.
  rewrite IH. simpl. by rewrite (own_NoDup cfs k v).
Qed.

(** [getFamilies] always asks for the unspecified view. When the request
    fails, its callback gets the error and nothing else: the API response
    that [getMetadata] received is not passed on, and the stored metadata is
    left alone. *)
Theorem getFamilies_error_drops_response this cb metadata e (resp : option TableMeta) :
  gmc_opened (gfc_metadata_call (getFamilies this cb)) =
    [(GrpcOpts "BigtableTableAdmin" "getTable",
      GetMetadataReqOpts (t_id this) (ViewNumber 0))] ∧
  getFamilies_respond (getFamilies this cb) metadata (Some e) resp =
    (metadata, invoke cb (Call3 (Some e) None None)).
Proof.
  split.
  - unfold getFamilies, getMetadata, VIEWS_at. reflexivity.
  - unfold getFamilies_respond, getMetadata_handler, getFamilies_inner. reflexivity.
Qed.

(** When the request succeeds and every family id is a non-empty string,
    [getFamilies] stores the response as the table's metadata and hands its
    callback one family per key of [columnFamilies], in the order of the
    keys, each bound to this table and carrying its own entry as metadata. *)
Theorem getFamilies_success this cb metadata (r : TableMeta) cfs :
  columnFamilies r = Some cfs ->
  NoDup (map fst cfs) ->
  Forall (fun kv => fst kv ≠ "") cfs ->
  getFamilies_respond (getFamilies this cb) metadata None (Some r) =
    (Some r,
     invoke cb
       (Call3 None
          (Some (map (fun kv => MkFamily this (fst kv) (Some (snd kv))) cfs))
          (Some r))).
Proof.
  intros Hcfs Hnodup Hkeys. unfold getFamilies_respond, getFamilies_inner. simpl.
  rewrite Hcfs, (map_families_ok this cfs cfs); [done|done|].
  apply Forall_forall. intros kv Hin. split; [done|].
  by apply (proj1 (Forall_forall _ _) Hkeys).
Qed.

(** ** sampleRowKeys *)

Lemma sample_events_data (msgs : list raw_sample) out :
  foldl sample_step out (map OnData msgs) =
  out ++ map OnData (map (fun k => MkSampleKey (rowKey k) (offsetBytes k)) msgs).
Proof.
  revert out. induction msgs as [|k rest IH]; intros out; simpl.
  - by rewrite app_nil_r.
  - rewrite IH. by rewrite <- app_assoc.
Qed.

(** [sampleRowKeys] hands on one [{key, offset}] per item of the stream, in
    order and with the item's own key and offset. With a callback they are
    collected and the callback is invoked exactly once, with all of them
    when the stream ends or with the error alone when it fails; without one
    they are the events of the returned stream. *)
Theorem sampleRowKeys_delivers_every_sample this cb (r : response raw_sample) :
  sampleRowKeys_run (sampleRowKeys this cb) r =
    match cb with
    | Callback =>
        SampleResult []
          [match termination r with
           | Finished =>
               CallOk (map (fun k => MkSampleKey (rowKey k) (offsetBytes k)) (messages r))
           | Failed e => CallErr e
           end]
    | NoCallback =>
        SampleResult
          (map OnData (map (fun k => MkSampleKey (rowKey k) (offsetBytes k)) (messages r)) ++
           [match termination r with Finished => OnEnd | Failed e => OnError e end])
          []
    end ∧
  length (map (fun k => MkSampleKey (rowKey k) (offsetBytes k)) (messages r)) =
    length (messages r).
Proof.
  split; [|by rewrite length_map].
  unfold sampleRowKeys_run, events_of. rewrite foldl_app, sample_events_data. simpl.
  destruct cb; simpl.
  - destruct (termination r); simpl; by rewrite ?deliver_end, ?deliver_error.
  - by destruct (termination r).
Qed.

End AdminFacts.

(** * More on the read pipeline *)

Section ReadFacts.
Context `{Ext : Externals}.

Lemma getRows_after_throw (c : getRows_call) st (evs : list (stream_event Chunks)) :
  is_Some (g_thrown st) -> foldl (getRows_step c) st evs = st.
Proof.
  intros [msg Hth]. induction evs as [|ev evs IH]; simpl; [done|].
  unfold getRows_step at 2. by rewrite Hth.
Qed.

Lemma forEach_row_split this st (rows : list (string * Data)) :
  ∃ before after,
    rows = before ++ after ∧
    Forall (fun rowData => fst rowData ≠ "") before ∧
    match after with
    | [] =>
        forEach_row this st rows =
        GetRowsState
          (g_out st ++
           map (fun rowData => OnData (MkRow this (fst rowData) (Some (snd rowData)))) before)
          (g_thrown st)
    | first :: _ =>
        fst first = "" ∧
        forEach_row this st rows =
        GetRowsState
          (g_out st ++
           map (fun rowData => OnData (MkRow this (fst rowData) (Some (snd rowData)))) before)
          (Some "A row key must be provided.")
    end.
Proof.
  revert st. induction rows as [|[k d] rest IH]; intros st.
  - exists [], []. simpl. split; [done|]. split; [done|]. rewrite app_nil_r.
    by destruct st.
  - cbn [forEach_row fst snd]. destruct (String.eqb_spec k "") as [->|Hk].
    + exists [], ((""%string, d) :: rest). cbn. split; [done|]. split; [done|].
      split; [done|]. by rewrite app_nil_r.
    + rewrite row_ok by done. cbn [r_table r_key].
      destruct (IH (GetRowsState
                      (g_out st ++ [OnData (MkRow this k (Some d))]) (g_thrown st)))
        as (before & after & -> & Hkeyed & Hresult).
      exists ((k, d) :: before), after. split; [done|]. split; [by constructor|].
      destruct after as [|first after]; cbn in *.
      * rewrite Hresult. by rewrite <- app_assoc.
      * destruct Hresult as [Hfirst ->]. split; [done|]. by rewrite <- app_assoc.
Qed.

Lemma getRows_data_split (c : getRows_call) this dec (msgs : list Chunks) st :
  gc_this c = this ->
  o_decode (gc_options c) = dec ->
  g_thrown st = None ->
  ∃ before after,
    flat_map (fun chunks => formatChunks_ chunks dec) msgs = before ++ after ∧
    Forall (fun rowData => fst rowData ≠ "") before ∧
    match after with
    | [] =>
        foldl (getRows_step c) st (map OnData msgs) =
        GetRowsState
          (g_out st ++
           map OnData
             (map (fun rowData => MkRow this (fst rowData) (Some (snd rowData))) before))
          None
    | first :: _ =>
        fst first = "" ∧
        foldl (getRows_step c) st (map OnData msgs) =
        GetRowsState
          (g_out st ++
           map OnData
             (map (fun rowData => MkRow this (fst rowData) (Some (snd rowData))) before))
          (Some "A row key must be provided.")
    end.
Proof.
  intros Hthis Hdec. revert st. induction msgs as [|chunks rest IH]; intros st Hth.
  - exists [], []. simpl. split; [done|]. split; [done|]. rewrite app_nil_r.
    destruct st; simpl in *; by subst.
  - cbn [map foldl flat_map].
    assert (getRows_step c st (OnData chunks) =
            forEach_row this st (formatChunks_ chunks dec)) as ->
      by (unfold getRows_step; by rewrite Hth, Hthis, Hdec).
    destruct (forEach_row_split this st (formatChunks_ chunks dec))
      as (before & after & Hrows & Hkeyed & Hresult).
    destruct after as [|first after].
    + rewrite Hresult, Hth.
      destruct (IH (GetRowsState
                      (g_out st ++
                       map (fun rowData =>
                              OnData (MkRow this (fst rowData) (Some (snd rowData))))
                           before) None) eq_refl)
        as (before' & after' & Hrest & Hkeyed' & Hresult').
      exists (before ++ before'), after'.
      split; [by rewrite Hrows, app_nil_r, Hrest, app_assoc|].
      split; [by apply Forall_app|].
      cbn [g_out] in Hresult'. rewrite !map_app, map_map.
      destruct after' as [|first' after'].
      * rewrite Hresult'. by rewrite <- app_assoc.
      * destruct Hresult' as [Hfirst ->]. split; [done|]. by rewrite <- app_assoc.
    + destruct Hresult as [Hfirst Hresult]. rewrite Hresult.
      rewrite getRows_after_throw by (by eexists).
      exists before, ((first :: after) ++ flat_map (fun chunks => formatChunks_ chunks dec) rest).
      split; [by rewrite Hrows, <- app_assoc|]. split; [done|]. cbn. split; [done|].
      by rewrite map_map.
Qed.

(** Whatever the stream delivers, [getRows] emits the reconstructed rows in
    arrival order up to the first row without a key. If every row has a key
    all of them are emitted, followed by the end or the error: a callback,
    passed first or second, is invoked exactly once with the rows or with
    the error alone, and without one they are the events of the returned
    stream. If some row has no key, [self.row] throws at the first such row:
    exactly the rows before it, of this and of earlier messages, have been
    emitted, nothing follows, and a callback is never invoked. *)
Theorem getRows_rows_in_arrival_order this arg cb (r : response Chunks) :
  ∃ before after,
    flat_map
      (fun chunks =>
         formatChunks_ chunks (match arg with ArgOptions o => o_decode o | _ => None end))
      (messages r) = before ++ after ∧
    Forall (fun rowData => fst rowData ≠ "") before ∧
    match after with
    | [] =>
        g_out (getRows_events (getRows this arg cb) (events_of r)) =
          map OnData
            (map (fun rowData => MkRow this (fst rowData) (Some (snd rowData))) before) ++
          [match termination r with Finished => OnEnd | Failed e => OnError e end] ∧
        getRows_run (getRows this arg cb) r =
          match arg, cb with
          | ArgFunction, _ | _, Callback =>
              GetRowsResult []
                [match termination r with
                 | Finished =>
                     CallOk (map (fun rowData =>
                                    MkRow this (fst rowData) (Some (snd rowData))) before)
                 | Failed e => CallErr e
                 end]
                None
          | _, NoCallback =>
              GetRowsResult
                (map OnData
                   (map (fun rowData => MkRow this (fst rowData) (Some (snd rowData)))
                        before) ++
                 [match termination r with Finished => OnEnd | Failed e => OnError e end])
                [] None
          end
    | first :: _ =>
        fst first = "" ∧
        g_out (getRows_events (getRows this arg cb) (events_of r)) =
          map OnData
            (map (fun rowData => MkRow this (fst rowData) (Some (snd rowData))) before) ∧
        getRows_run (getRows this arg cb) r =
          match arg, cb with
          | ArgFunction, _ | _, Callback =>
              GetRowsResult [] [] (Some "A row key must be provided.")
          | _, NoCallback =>
              GetRowsResult
                (map OnData
                   (map (fun rowData => MkRow this (fst rowData) (Some (snd rowData)))
                        before))
                [] (Some "A row key must be provided.")
          end
    end.
Proof.
  destruct (getRows_fields this arg cb) as (Hthis & Hdec & Hcb & _).
  destruct (getRows_data_split (getRows this arg cb) this _ (messages r)
              (GetRowsState [] None) Hthis Hdec eq_refl)
    as (before & after & Hrows & Hkeyed & Hresult).
  exists before, after. split; [done|]. split; [done|].
  unfold getRows_run, getRows_events, events_of. rewrite foldl_app, Hcb.
  destruct after as [|first after].
  - rewrite Hresult. cbn [foldl g_out app].
    assert (getRows_step (getRows this arg cb)
              (GetRowsState
                 (map OnData
                    (map (fun rowData => MkRow this (fst rowData) (Some (snd rowData)))
                         before)) None)
              match termination r with Finished => OnEnd | Failed e => OnError e end =
            GetRowsState
              (map OnData
                 (map (fun rowData => MkRow this (fst rowData) (Some (snd rowData)))
                      before) ++
               [match termination r with Finished => OnEnd | Failed e => OnError e end])
              None) as -> by (by destruct (termination r)).
    split; [done|]. cbn [g_out g_thrown].
    destruct arg as [|o|], cb, (termination r);
      by rewrite ?deliver_end, ?deliver_error.
  - destruct Hresult as [Hfirst ->]. split; [done|].
    rewrite getRows_after_throw by (by eexists). cbn [g_out g_thrown app].
    split; [done|].
    destruct arg as [|o|], cb; by rewrite ?deliver_data_only.
Qed.

(** A caller who passes the same options object to [getRows] again gets the
    shorthand range again: the first call has pushed it onto the object's
    [ranges], the second pushes it once more, and its request lists the
    first call's ranges followed by one more copy of the shorthand range. *)
Theorem getRows_reused_options this (options : read_options) cb cb' :
  truthy_str (o_start options) || truthy_str (o_end options) = true ->
  ∃ req1 req2 rows1 rows2 ranges1,
    gc_opened (getRows this (ArgOptions options) cb) =
      [(GrpcOpts "Bigtable" "readRows", req1)] ∧
    gc_opened (getRows this
                 (ArgOptions (gc_options (getRows this (ArgOptions options) cb))) cb') =
      [(GrpcOpts "Bigtable" "readRows", req2)] ∧
    g_rows req1 = Some rows1 ∧
    rowRanges rows1 = Some ranges1 ∧
    g_rows req2 = Some rows2 ∧
    rowRanges rows2 = Some (ranges1 ++ [createRange (o_start options) (o_end options)]) ∧
    length ranges1 = length (default [] (o_ranges options)) + 1.
Proof.
  intros Htruthy. unfold getRows, getRows_args, push_shorthand. simpl. rewrite Htruthy.
  simpl. rewrite Htruthy. unfold getRows_rows. simpl.
  assert (∀ (l : list range) x, (length (l ++ [x]) =? 0)%nat = false) as Hlen.
  { intros l x. apply Nat.eqb_neq. rewrite length_app. simpl. lia. }
  rewrite !Hlen, !orb_true_r. simpl.
  eexists _, _, _, _, _. split; [reflexivity|]. split; [reflexivity|].
  split; [reflexivity|]. split; [reflexivity|]. split; [reflexivity|].
  split; [by rewrite !map_app|]. by rewrite length_map, length_app.
Qed.

(** The request has no row set, and so reads the whole table, exactly when
    there are no keys (not even an empty list), no explicit range and no
    truthy [start] or [end]. *)
Theorem getRows_whole_table this (options : read_options) cb :
  ∃ reqOpts,
    gc_opened (getRows this (ArgOptions options) cb) =
      [(GrpcOpts "Bigtable" "readRows", reqOpts)] ∧
    (g_rows reqOpts = None ↔
     o_keys options = None ∧ default [] (o_ranges options) = [] ∧
     truthy_str (o_start options) || truthy_str (o_end options) = false).
Proof.
  eexists. split; [reflexivity|]. unfold push_shorthand, getRows_args, getRows_rows. simpl.
  destruct (truthy_str (o_start options) || truthy_str (o_end options)); simpl.
  - assert ((length (default [] (o_ranges options) ++
                     [Range (o_start options) (o_end options)]) =? 0)%nat = false) as ->.
    { apply Nat.eqb_neq. rewrite length_app. simpl. lia. }
    rewrite orb_true_r. split; [done|]. by intros (_ & _ & ?).
  - destruct (o_keys options) as [ks|]; simpl.
    + split; [done|]. by intros (? & _).
    + destruct (default [] (o_ranges options)) as [|x l]; simpl; [done|].
      split; [done|]. by intros (_ & ? & _).
Qed.

End ReadFacts.

(** * More on the mutate pipeline *)

Section MutateFacts.
Context `{Ext : Externals}.

Implicit Types (h : gmap addr (props Data)) (E v : value) (vs : list value).

Lemma tagged_idemp h vs : tagged (tagged h vs) vs = tagged h vs.
Proof.
  apply map_eq. intros b. rewrite !tagged_lookup, tagged_read.
  by destruct (decide (b ∈ map addr_of vs)).
Qed.

(** Inserting the same entries again changes nothing more: the store after
    a second [insert] is the store after the first, and the second call
    makes the request the first one made. So does a [mutate] of the same
    entries after the [insert]: the caller's objects now say insert. *)
Theorem insert_twice h this E cb cb' :
  mc_store (insert (mc_store (insert h this E cb)) this E cb') =
    mc_store (insert h this E cb) ∧
  mc_opened (insert (mc_store (insert h this E cb)) this E cb') =
    mc_opened (insert h this E cb) ∧
  mc_opened (mutate (mc_store (insert h this E cb)) this E cb') =
    mc_opened (insert h this E cb).
Proof.
  rewrite !insert_is_mutate. simpl. by rewrite !tagged_idemp.
Qed.

Lemma map_read_untouched h (tops flat : list value) :
  Forall (fun v => addr_of v ∉ map addr_of tops) flat ->
  map (fun entry => Mutation_parse (read (tagged h tops) (addr_of entry))) flat =
  map (fun entry => Mutation_parse (read h (addr_of entry))) flat.
Proof.
  induction 1 as [|v rest Hv _ IH]; simpl; [done|].
  rewrite IH, tagged_read. by rewrite decide_False.
Qed.

(** [insert] tags the elements of the arrified input and nothing below them:
    when no flattened entry is itself one of those elements, as for a list
    of lists of entries, nothing that is encoded has been tagged and the
    request is the one [mutate] makes on the same input. *)
Theorem insert_tags_top_level_only h this E cb :
  Forall (fun v => addr_of v ∉ map addr_of (arrify E)) (flatten (arrify E)) ->
  mc_opened (insert h this E cb) = mc_opened (mutate h this E cb).
Proof.
  intros Hdisjoint. rewrite insert_is_mutate. simpl.
  by rewrite map_read_untouched.
Qed.

Lemma flatten_plain vs : forallb is_plain vs = true -> flatten vs = vs.
Proof.
  induction vs as [|[a|a elems] rest IH]; simpl; [done| |done].
  intros Hrest. by rewrite IH.
Qed.

Lemma plain_objects (l : list addr) : forallb is_plain (map VObj l) = true.
Proof. by induction l. Qed.

(** On an input nested at most one level deep (a single entry, a list of
    entries, or a list whose elements are entries or lists of entries) the
    index space of [mutate] is exactly the caller's entry objects, left to
    right, and flattening it again would change nothing. *)
Theorem mutate_index_space_shallow h this E cb :
  forallb shallow (arrify E) = true ->
  mc_entries (mutate h this E cb) = map VObj (leaves E) ∧
  flatten (mc_entries (mutate h this E cb)) = mc_entries (mutate h this E cb) ∧
  length (mc_entries (mutate h this E cb)) = length (leaves E).
Proof.
  intros Hshallow. simpl. rewrite flatten_shallow, arrify_leaves by done.
  split; [done|]. split; [|by rewrite length_map].
  apply flatten_plain, plain_objects.
Qed.

End MutateFacts.

(** * The further facts on concrete calls *)

(** [insert([[entry]])]: the entry is below the top level, keeps having no
    method, and is encoded as [mutate] would encode it. *)
Lemma insert_tags_top_level_only_witness :
  Forall (fun v => addr_of v ∉ map addr_of (arrify (VArr 1 [VArr 2 [VObj 7]])))
         (flatten (arrify (VArr 1 [VArr 2 [VObj 7]]))) ∧
  mc_opened (insert (Ext := demo) one_entry prezzy (VArr 1 [VArr 2 [VObj 7]]) Callback) =
    [(GrpcOpts "Bigtable" "mutateRows",
      MutateReqOpts (Ext := demo) true "prezzy"
        [Props (Some "alincoln") None (Some "follows:gwashington")])].
Proof.
  assert (Forall (fun v => addr_of v ∉ map addr_of (arrify (VArr 1 [VArr 2 [VObj 7]])))
                 (flatten (arrify (VArr 1 [VArr 2 [VObj 7]])))) as Hdisjoint.
  { repeat constructor. simpl. intros [?|?%elem_of_nil]%elem_of_cons; done. }
  split; [exact Hdisjoint|].
  rewrite (insert_tags_top_level_only (Ext := demo) one_entry prezzy
             (VArr 1 [VArr 2 [VObj 7]]) Callback Hdisjoint).
  reflexivity.
Defined.

(** [mutate([e7, [e8, e9]])]: the index space is e7, e8, e9. *)
Lemma mutate_index_space_shallow_witness :
  forallb shallow (arrify (VArr 0 [VObj 7; VArr 1 [VObj 8; VObj 9]])) = true ∧
  mc_entries (mutate (Ext := demo) one_entry prezzy
                (VArr 0 [VObj 7; VArr 1 [VObj 8; VObj 9]]) Callback) =
    [VObj 7; VObj 8; VObj 9].
Proof.
  split; [reflexivity|].
  exact (proj1 (mutate_index_space_shallow (Ext := demo) one_entry prezzy
                  (VArr 0 [VObj 7; VArr 1 [VObj 8; VObj 9]]) Callback eq_refl)).
Defined.

(** [keys_and_ranges] passed twice: the second request has three ranges. *)
Lemma getRows_reused_options_witness :
  truthy_str (o_start keys_and_ranges) || truthy_str (o_end keys_and_ranges) = true ∧
  ∃ reqOpts : getRows_reqOpts (Ext := demo),
    gc_opened (getRows prezzy
                 (ArgOptions (gc_options (getRows prezzy (ArgOptions keys_and_ranges)
                                            NoCallback))) NoCallback) =
      [(GrpcOpts "Bigtable" "readRows", reqOpts)] ∧
    g_rows reqOpts =
      Some (RowSet (Ext := demo) (Some ["a"; "b"])
              (Some [(Some "c", Some "f"); (Some "x", None); (Some "x", None)])).
Proof.
  split; [reflexivity|].
  destruct (getRows_reused_options (Ext := demo) prezzy keys_and_ranges
              NoCallback NoCallback eq_refl)
    as (req1 & req2 & rows1 & rows2 & ranges1 & _ & Hopened & _ & _ & _ & _ & _).
  exists req2. split; [exact Hopened|].
  injection Hopened as <-. reflexivity.
Defined.

(** A table with two families. *)
Lemma getFamilies_success_witness :
  NoDup (map fst [("follows", "gc1"); ("traits", "gc2")]) ∧
  Forall (fun kv : string * string => fst kv ≠ "") [("follows", "gc1"); ("traits", "gc2")] ∧
  getFamilies_respond (Ext := demo) (Adm := demo_admin)
    (getFamilies prezzy Callback) None None
    (Some [("follows", "gc1"); ("traits", "gc2")]) =
  (Some [("follows", "gc1"); ("traits", "gc2")],
   Outcome (Ext := demo)
     [Call3 (Ext := demo) None
        (Some [MkFamily prezzy "follows" (Some "gc1");
               MkFamily prezzy "traits" (Some "gc2")])
        (Some [("follows", "gc1"); ("traits", "gc2")])]
     None).
Proof.
  assert (NoDup (map fst [("follows", "gc1"); ("traits", "gc2")])) as Hnodup
    by (by apply (bool_decide_unpack _)).
  assert (Forall (fun kv : string * string => fst kv ≠ "")
                 [("follows", "gc1"); ("traits", "gc2")]) as Hkeys
    by (repeat constructor; discriminate).
  split; [exact Hnodup|]. split; [exact Hkeys|].
  exact (getFamilies_success (Ext := demo) (Adm := demo_admin) prezzy Callback None
           [("follows", "gc1"); ("traits", "gc2")]
           [("follows", "gc1"); ("traits", "gc2")] eq_refl Hnodup Hkeys).
Defined.

(** A family with an empty id: [self.family] throws inside the handler and
    the callback is not reached, though the metadata has been stored. *)
Example getFamilies_unnamed_family_throws :
  getFamilies_respond (Ext := demo) (Adm := demo_admin)
    (getFamilies prezzy Callback) None None (Some [("follows", "gc1"); ("", "gc2")]) =
  (Some [("follows", "gc1"); ("", "gc2")],
   Outcome (Ext := demo) [] (Some "A family name must be provided.")).
Proof. reflexivity. Qed.

(** [deleteRows({prefix: ''}, callback)] drops every row. *)
Example deleteRows_empty_prefix :
  drc_opened (deleteRows (Ext := demo) prezzy (DArgOptions (Some "")) Callback) =
    [(GrpcOpts "BigtableTableAdmin" "dropRowRange",
      DeleteRowsReqOpts (Ext := demo) "prezzy" None (Some true))].
Proof. reflexivity. Qed.
